(** * libmqtt: packet-id allocator, wire helpers, client and connection logic

    A shallow embedding of the Go sources of the MQTT client (helper
    functions, [AsyncClient] and [clientConn]) together with the properties
    of the specification that can be settled against them.

    Conventions.
    - Go's [int], [uint16], [uint32] are [Z]; where the source relies on a
      fixed width, the wrap-around is written with [mod].
    - A [byte] is [Byte.byte]; [u8] gives its value in [0..255].
    - A Go slice is a window of a backing array: the bytes from its first
      element to the end of the array (its capacity) and its length.
    - A run-time panic is an explicit outcome; [recover] is modelled where
      the source defers it.
    - A [select] statement takes the case that fired as an input. *)

From Stdlib Require Import ZArith List Lia Bool.
From Stdlib Require Import Strings.Byte.
From Stdlib Require Import Floats.PrimFloat Floats.FloatOps Floats.SpecFloat.
From Stdlib Require Import Numbers.Cyclic.Int63.Uint63.
From Equations Require Import Equations.
From stdpp Require Import gmap strings list pretty.

Local Open Scope Z_scope.

(** ** Machine integers and bytes *)

Abbreviation byte := Byte.byte.

Definition u8 (b : byte) : Z := Z.of_N (Byte.to_N b).

(** Go's conversion [byte(n)]: keep the low eight bits. *)
Definition to_byte (n : Z) : byte :=
  match Byte.of_N (Z.to_N (n mod 256)) with
  | Some b => b
  | None => Byte.x00
  end.

Definition uint16 (n : Z) : Z := n mod 65536.
Definition uint32 (n : Z) : Z := n mod 4294967296.

Definition MaxUint16 : Z := 65535.
Definition MaxUint8 : Z := 255.

#[global] Instance byte_eq_dec : EqDecision byte.
Proof. intros a b. exact (Byte.byte_eq_dec a b). Defined.

#[global] Instance byte_countable : Countable byte :=
  inj_countable' Byte.to_N (fun n => default Byte.x00 (Byte.of_N n))
    ltac:(intros b; destruct b; reflexivity).

(** ** Errors

    The error values the sources return.  [ErrEncodeLargePacket] and
    [ErrDecodeBadPacket] are package variables declared with the codec;
    [ErrNew] stands for a value made by [errors.New]; [ctxErr] is what
    [ctx.Err()] yields once a context is done. *)

Inductive ctx_err := Canceled | DeadlineExceeded.

Inductive error :=
| ErrEncodeLargePacket
| ErrDecodeBadPacket
| ErrNew (msg : string)
| ctxErr (why : ctx_err)
| connAckError (code : Z)
| ErrOther (msg : string).

(** [ErrTimeOut = errors.New("connection timeout ")] *)
Definition ErrTimeOut : error := ErrNew "connection timeout ".

#[global] Instance ctx_err_eq_dec : EqDecision ctx_err.
Proof. solve_decision. Defined.
#[global] Instance error_eq_dec : EqDecision error.
Proof. solve_decision. Defined.

(** ** Persistence keys *)

(** [fmt.Sprintf("%s%d", "R", packetID)] *)
Definition recvKey (packetID : Z) : string := "R" +:+ pretty packetID.

(** [fmt.Sprintf("%s%d", "S", packetID)] *)
Definition sendKey (packetID : Z) : string := "S" +:+ pretty packetID.

(** ** Variable-length integers *)

(** Modelled from the spec: the constant [maxMsgSize] is declared with the
    codec, outside the sources at hand; the specification gives the limit on
    a variable-length integer as 268,435,455. *)
Definition maxMsgSize : Z := 268435455.

(** The [for n > 0] loop of [writeVarInt]; [w] is what the writer holds. *)
Equations? writeVarInt_loop (n : Z) (w : list byte) : list byte
  by wf (Z.to_nat n) lt :=
  writeVarInt_loop n w with Z_gt_dec n 0 => {
    | right _ := w;
    | left _ :=
        let encodedByte := n mod 128 in
        let n' := n / 128 in
        let encodedByte :=
          if Z_gt_dec n' 0 then Z.lor encodedByte 128 else encodedByte in
        writeVarInt_loop n' (w ++ [to_byte encodedByte]) }.
Proof.
  assert (n / 128 < n) by (apply Z.div_lt; lia).
  assert (0 <= n / 128) by (apply Z.div_pos; lia).
  lia.
Qed.

(** [writeVarInt(n, w)]: the error and the writer afterwards. *)
Definition writeVarInt (n : Z) (w : list byte) : option error * list byte :=
  if decide (n < 0 \/ n > maxMsgSize) then (Some ErrEncodeLargePacket, w)
  else if decide (n = 0) then (None, w ++ [Byte.x00])
  else (None, writeVarInt_loop n w).

(** The [for m < 27] loop of [getRemainLength] over a reader holding [r]:
    the two results and what is left in the reader. *)
Fixpoint getRemainLength_loop (r : list byte) (length m : Z)
  : (Z * Z) * list byte :=
  if decide (m < 27) then
    match r with
    | [] => ((0, 0), [])
    | b :: r' =>
        let length := Z.lor length (Z.shiftl (Z.land (u8 b) 127) m) in
        if decide (Z.land (u8 b) 128 = 0)
        then ((length, m / 7 + 1), r')
        else getRemainLength_loop r' length (m + 7)
    end
  else ((length, m / 7 + 1), r).

Definition getRemainLength_reader (r : list byte) : (Z * Z) * list byte :=
  getRemainLength_loop r 0 0.

(** [getRemainLength(r)] for a fresh reader over [r]: (length, byteCount). *)
Definition getRemainLength (r : list byte) : Z * Z :=
  fst (getRemainLength_reader r).

(** ** Packet-id allocator *)

Section IdGenerator.
Context {Extra : Type}.

(** [idGenerator]: the counter and the side-table ([sync.Map]); the mutex
    field is never used by the methods. *)
Record idGenerator := IdGenerator {
  nextID : Z;
  usedIDs : gmap Z Extra
}.

Definition newIDGenerator : idGenerator :=
  {| nextID := 0; usedIDs := ∅ |}.

(** [atomic.AddUint32(&g.nextID, delta)]: the new value and the state. *)
Definition AddUint32 (g : idGenerator) (delta : Z) : Z * idGenerator :=
  let v := uint32 (nextID g + delta) in
  (v, {| nextID := v; usedIDs := usedIDs g |}).

(** [atomic.StoreUint32(&g.nextID, v)] *)
Definition StoreUint32 (g : idGenerator) (v : Z) : idGenerator :=
  {| nextID := uint32 v; usedIDs := usedIDs g |}.

(** [g.usedIDs.LoadOrStore(id, extra)]: the [loaded] flag and the state. *)
Definition LoadOrStore (g : idGenerator) (id : Z) (extra : Extra)
  : bool * idGenerator :=
  match usedIDs g !! id with
  | Some _ => (true, g)
  | None => (false, {| nextID := nextID g; usedIDs := <[id := extra]> (usedIDs g) |})
  end.

(** The probing loop of [next]
    [for i := 0; loaded; id = uint16(atomic.AddUint32(&g.nextID, 1))].
    The counter [i] is carried as [rem = math.MaxUint16 - i], so that the
    test [i == math.MaxUint16] is [rem = 0]. The function is entered at
    the loop condition. *)
Fixpoint next_loop (rem : nat) (extra : Extra) (id : Z) (loaded : bool)
         (g : idGenerator) : Z * idGenerator :=
  if loaded then
    match rem with
    | O => (0, g)
    | S rem' =>
        let '(loaded, g) := LoadOrStore g id extra in
        let '(v, g) := AddUint32 g 1 in
        next_loop rem' extra (uint16 v) loaded g
    end
  else (id, g).

(** [g.next(extra)] *)
Definition next (extra : Extra) (g : idGenerator) : Z * idGenerator :=
  let '(v, g) := AddUint32 g 1 in
  let id := uint16 v in
  let '(id, g) :=
    if decide (id = 0) then (1, StoreUint32 g 1) else (id, g) in
  let '(loaded, g) := LoadOrStore g id extra in
  if loaded then next_loop (Z.to_nat MaxUint16) extra id loaded g
  else (id, g).

(** [g.free(id)] *)
Definition free (id : Z) (g : idGenerator) : idGenerator :=
  {| nextID := nextID g; usedIDs := delete id (usedIDs g) |}.

(** [g.getExtra(id)] *)
Definition getExtra (id : Z) (g : idGenerator) : option Extra :=
  usedIDs g !! id.
End IdGenerator.
Arguments idGenerator : clear implicits.

(** ** Slices *)

(** A slice: the backing array from the slice's first element on (its
    length is the capacity) and the slice's length. *)
Record slice := Slice {
  backing : list byte;
  len : nat
}.

Definition cap (s : slice) : Z := Z.of_nat (length (backing s)).

(** The elements of the slice. *)
Definition bytes (s : slice) : list byte := take (len s) (backing s).

(** A slice of length [length data] whose backing array continues with
    [beyond]. *)
Definition mkslice (data beyond : list byte) : slice :=
  {| backing := data ++ beyond; len := length data |}.

(** [s[i]]; [None] is the index-out-of-range panic. *)
Definition index (s : slice) (i : Z) : option byte :=
  if decide (0 <= i < Z.of_nat (len s)) then backing s !! Z.to_nat i
  else None.

(** [s[lo:hi]]: Go checks [0 <= lo <= hi <= cap(s)]. *)
Definition reslice (s : slice) (lo hi : Z) : option slice :=
  if decide (0 <= lo /\ lo <= hi /\ hi <= cap s)
  then Some {| backing := drop (Z.to_nat lo) (backing s);
               len := Z.to_nat (hi - lo) |}
  else None.

(** [s[lo:]], that is [s[lo:len(s)]]. *)
Definition reslice_from (s : slice) (lo : Z) : option slice :=
  if decide (lo <= Z.of_nat (len s)) then reslice s lo (Z.of_nat (len s))
  else None.

(** [binary.BigEndian.Uint16(d)] *)
Definition getUint16 (d : slice) : option Z :=
  b1 ← index d 1;
  b0 ← index d 0;
  Some (Z.lor (u8 b1) (Z.shiftl (u8 b0) 8)).

(** ** Property lists *)

(** Modelled from the spec: the [propKey...] constants are declared with
    the codec, outside the sources at hand. The specification names the
    recognized keys; the values are the property identifiers that MQTT
    version 5 assigns to those names. *)
Definition propKeyPayloadFormatIndicator : byte := Byte.x01.
Definition propKeyMessageExpiryInterval : byte := Byte.x02.
Definition propKeyContentType : byte := Byte.x03.
Definition propKeyRespTopic : byte := Byte.x08.
Definition propKeyCorrelationData : byte := Byte.x09.
Definition propKeySubID : byte := Byte.x0b.
Definition propKeySessionExpiryInterval : byte := Byte.x11.
Definition propKeyAssignedClientID : byte := Byte.x12.
Definition propKeyServerKeepalive : byte := Byte.x13.
Definition propKeyAuthMethod : byte := Byte.x15.
Definition propKeyAuthData : byte := Byte.x16.
Definition propKeyReqProblemInfo : byte := Byte.x17.
Definition propKeyWillDelayInterval : byte := Byte.x18.
Definition propKeyReqRespInfo : byte := Byte.x19.
Definition propKeyRespInfo : byte := Byte.x1a.
Definition propKeyServerRef : byte := Byte.x1c.
Definition propKeyReasonString : byte := Byte.x1f.
Definition propKeyMaxRecv : byte := Byte.x21.
Definition propKeyMaxTopicAlias : byte := Byte.x22.
Definition propKeyTopicAlias : byte := Byte.x23.
Definition propKeyMaxQos : byte := Byte.x24.
Definition propKeyRetainAvail : byte := Byte.x25.
Definition propKeyUserProps : byte := Byte.x26.
Definition propKeyMaxPacketSize : byte := Byte.x27.
Definition propKeyWildcardSubAvail : byte := Byte.x28.
Definition propKeySubIDAvail : byte := Byte.x29.
Definition propKeySharedSubAvail : byte := Byte.x2a.

(** [propsBytes[1 : 3+getUint16(propsBytes[1:3])]]; the bound is computed
    in [uint16]. *)
Definition lenPrefixed (propsBytes : slice) : option slice :=
  d ← reslice propsBytes 1 3;
  l ← getUint16 d;
  reslice propsBytes 1 (uint16 (3 + l)).

(** The [propKeySubID] case. *)
Definition subIDValue (propsBytes : slice) : option slice :=
  r ← reslice_from propsBytes 1;
  let '(_, byteLen) := getRemainLength (bytes r) in
  reslice propsBytes 1 (1 + byteLen).

(** The [propKeyUserProps] case; [keyEnd] and [valEnd] are [uint16]. *)
Definition userPropsValue (propsBytes : slice) : option slice :=
  d ← reslice propsBytes 1 3;
  l ← getUint16 d;
  let keyEnd := uint16 (2 + l) in
  d' ← reslice propsBytes (uint16 (keyEnd + 1)) (uint16 (keyEnd + 3));
  l' ← getUint16 d';
  let valEnd := uint16 (uint16 (2 + keyEnd) + l') in
  reslice propsBytes 1 (uint16 (valEnd + 1)).

(** The [switch propsBytes[0]] of [getRawProps], given the key read:
    [None] is the [default] branch, [Some None] a panic while slicing,
    [Some (Some p)] the value [p]. *)
Definition propCase (key : byte) (propsBytes : slice) : option (option slice) :=
  if decide (key = propKeyPayloadFormatIndicator) then Some (reslice propsBytes 1 2)
  else if decide (key = propKeyMessageExpiryInterval) then Some (reslice propsBytes 1 5)
  else if decide (key = propKeyContentType) then Some (lenPrefixed propsBytes)
  else if decide (key = propKeyRespTopic) then Some (lenPrefixed propsBytes)
  else if decide (key = propKeyCorrelationData) then Some (lenPrefixed propsBytes)
  else if decide (key = propKeySubID) then Some (subIDValue propsBytes)
  else if decide (key = propKeySessionExpiryInterval) then Some (reslice propsBytes 1 5)
  else if decide (key = propKeyAssignedClientID) then Some (lenPrefixed propsBytes)
  else if decide (key = propKeyServerKeepalive) then Some (reslice propsBytes 1 3)
  else if decide (key = propKeyAuthMethod) then Some (lenPrefixed propsBytes)
  else if decide (key = propKeyAuthData) then Some (lenPrefixed propsBytes)
  else if decide (key = propKeyReqProblemInfo) then Some (reslice propsBytes 1 2)
  else if decide (key = propKeyWillDelayInterval) then Some (reslice propsBytes 1 5)
  else if decide (key = propKeyReqRespInfo) then Some (reslice propsBytes 1 2)
  else if decide (key = propKeyRespInfo) then Some (lenPrefixed propsBytes)
  else if decide (key = propKeyServerRef) then Some (lenPrefixed propsBytes)
  else if decide (key = propKeyReasonString) then Some (lenPrefixed propsBytes)
  else if decide (key = propKeyMaxRecv) then Some (reslice propsBytes 1 3)
  else if decide (key = propKeyMaxTopicAlias) then Some (reslice propsBytes 1 3)
  else if decide (key = propKeyTopicAlias) then Some (reslice propsBytes 1 3)
  else if decide (key = propKeyMaxQos) then Some (reslice propsBytes 1 2)
  else if decide (key = propKeyRetainAvail) then Some (reslice propsBytes 1 2)
  else if decide (key = propKeyUserProps) then Some (userPropsValue propsBytes)
  else if decide (key = propKeyMaxPacketSize) then Some (reslice propsBytes 1 5)
  else if decide (key = propKeyWildcardSubAvail) then Some (reslice propsBytes 1 2)
  else if decide (key = propKeySubIDAvail) then Some (reslice propsBytes 1 2)
  else if decide (key = propKeySharedSubAvail) then Some (reslice propsBytes 1 2)
  else None.

(** How the body of [getRawProps] ends: it falls off the loop, it returns
    from the [default] branch with [err] set, or it panics. *)
Inductive loop_exit := LoopDone | LoopReturn (e : error) | LoopPanic.

(** The loop [for i := 0; i < propsLen; { ... }] of [getRawProps]: the map
    [props] when the loop is left, and how it is left. *)
Equations? getRawProps_loop (propsLen i : Z) (propsBytes : slice)
  (props : gmap byte (list byte)) : gmap byte (list byte) * loop_exit
  by wf (Z.to_nat (propsLen - i)) lt :=
  getRawProps_loop propsLen i propsBytes props with Z_lt_dec i propsLen => {
    | right _ := (props, LoopDone);
    | left _ with index propsBytes 0 => {
      | None := (props, LoopPanic);
      | Some key with propCase key propsBytes => {
        | None := (props, LoopReturn ErrDecodeBadPacket);
        | Some None := (props, LoopPanic);
        | Some (Some p) with
            reslice_from propsBytes (1 + Z.of_nat (len p)) => {
          | None :=
              (<[key := default [] (props !! key) ++ bytes p]> props, LoopPanic);
          | Some propsBytes' :=
              getRawProps_loop propsLen (i + (1 + Z.of_nat (len p)))
                propsBytes'
                (<[key := default [] (props !! key) ++ bytes p]> props) } } } }.
Proof. lia. Qed.

(** The named results [props], [next] and [err] of [getRawProps]; [None]
    is a nil map or slice. *)
Record rawProps := RawProps {
  props : option (gmap byte (list byte));
  next_data : option slice;
  err : option error
}.

(** [getRawProps(data)]: the deferred [recover] turns a panic into
    [err = ErrDecodeBadPacket], leaving [props] and [next] as they were
    when the panic was raised. *)
Definition getRawProps (data : slice) : rawProps :=
  let '(propsLen, byteLen) := getRemainLength (bytes data) in
  match reslice data byteLen (propsLen + byteLen) with
  | None => RawProps None None (Some ErrDecodeBadPacket)
  | Some propsBytes =>
      match reslice_from data (propsLen + byteLen) with
      | None => RawProps None None (Some ErrDecodeBadPacket)
      | Some nxt =>
          match getRawProps_loop propsLen 0 propsBytes ∅ with
          | (props, LoopDone) => RawProps (Some props) (Some nxt) None
          | (props, LoopReturn e) => RawProps (Some props) (Some nxt) (Some e)
          | (props, LoopPanic) =>
              RawProps (Some props) (Some nxt) (Some ErrDecodeBadPacket)
          end
      end
  end.

(** ** Outcomes of a call

    A call returns, panics, or never returns because it waits on a channel
    that nobody will serve (a nil channel). *)

Inductive outcome (A : Type) :=
| Ret (a : A)
| Panics
| Blocks.
Arguments Ret {A} a.
Arguments Panics {A}.
Arguments Blocks {A}.

#[global] Instance outcome_ret : MRet outcome := fun A a => Ret a.
#[global] Instance outcome_bind : MBind outcome := fun A B f m =>
  match m with
  | Ret a => f a
  | Panics => Panics
  | Blocks => Blocks
  end.

(** ** Packets, topics and the heap *)

(** Modelled from the spec: the [QosLevel] constants are declared with the
    codec; the specification gives the levels as 0, 1 and 2. *)
Definition Qos0 : Z := 0.
Definition Qos1 : Z := 1.
Definition Qos2 : Z := 2.

(** Modelled from the spec: the CONNACK code of an accepted connection is 0. *)
Definition CodeSuccess : Z := 0.

Definition loc := positive.

Module Topic.
Record t := mk { Name : string; Qos : Z }.
End Topic.

Module PublishPacket.
Record t := mk {
  TopicName : string;
  Payload : list byte;
  Qos : Z;
  PacketID : Z
}.
End PublishPacket.

(** [Topics []*Topic]: each entry is a pointer, [None] for nil. *)
Module SubscribePacket.
Record t := mk { Topics : list (option loc); PacketID : Z }.
End SubscribePacket.

Module UnSubPacket.
Record t := mk { TopicNames : list string; PacketID : Z }.
End UnSubPacket.

(** What a pointer of the program points to. Topics and the packets that
    the client writes to after they are shared live on the heap. *)
Inductive object :=
| OTopic (t : Topic.t)
| OPublish (p : PublishPacket.t)
| OSubscribe (s : SubscribePacket.t)
| OUnSub (u : UnSubPacket.t).

(** Modelled from the spec: the packet types are declared with the codec,
    outside the sources at hand; each carries the fields that the sources
    read or write. A value of the interface [Packet] is a pointer to one of
    them; the packets the client never writes to after building them are
    given by their fields. *)
Inductive Packet :=
| ConnPacket
| ConnAckPacket (Code : Z)
| PublishRef (p : loc)
| PubAckPacket (PacketID : Z)
| PubRecvPacket (PacketID : Z)
| PubRelPacket (PacketID : Z)
| PubCompPacket (PacketID : Z)
| SubscribeRef (s : loc)
| SubAckPacket (PacketID : Z) (Codes : list Z)
| UnSubRef (u : loc)
| UnSubAckPacket (PacketID : Z)
| PingReqPacket
| PingRespPacket
| DisConnPacket.

Inductive CtrlType :=
| CtrlConn | CtrlConnAck | CtrlPublish | CtrlPubAck | CtrlPubRecv
| CtrlPubRel | CtrlPubComp | CtrlSubscribe | CtrlSubAck | CtrlUnSub
| CtrlUnSubAck | CtrlPingReq | CtrlPingResp | CtrlDisConn.

(** Modelled from the spec: [pkt.Type()], declared with each packet type,
    gives the control-packet kind of the packet. *)
Definition Type_ (pkt : Packet) : CtrlType :=
  match pkt with
  | ConnPacket => CtrlConn
  | ConnAckPacket _ => CtrlConnAck
  | PublishRef _ => CtrlPublish
  | PubAckPacket _ => CtrlPubAck
  | PubRecvPacket _ => CtrlPubRecv
  | PubRelPacket _ => CtrlPubRel
  | PubCompPacket _ => CtrlPubComp
  | SubscribeRef _ => CtrlSubscribe
  | SubAckPacket _ _ => CtrlSubAck
  | UnSubRef _ => CtrlUnSub
  | UnSubAckPacket _ => CtrlUnSubAck
  | PingReqPacket => CtrlPingReq
  | PingRespPacket => CtrlPingResp
  | DisConnPacket => CtrlDisConn
  end.

#[global] Instance Packet_eq_dec : EqDecision Packet.
Proof. solve_decision. Defined.
#[global] Instance CtrlType_eq_dec : EqDecision CtrlType.
Proof. solve_decision. Defined.

(** The events of the client's [msgCh], as [handleMsg] reads them. *)
Inductive message :=
| pubMsg (topic : string) (err : option error)
| subMsg (topics : list (option loc)) (err : option error)
| unSubMsg (names : list string) (err : option error)
| netMsg (server : string) (err : option error)
| persistMsg (err : error).

(** ** Durations and floats *)

(** [time.Duration] is an [int64] count of nanoseconds. *)
Definition int64 (z : Z) : Z := (z + 2 ^ 63) mod 2 ^ 64 - 2 ^ 63.

Definition Second : Z := 1000000000.
Definition Minute : Z := 60 * Second.

(** [float64(d)] for an [int64] [d]. *)
Definition float64_of_int (z : Z) : float :=
  if decide (0 <= z) then PrimFloat.of_uint63 (Uint63.of_Z z)
  else if decide (z = - 2 ^ 63)
       then PrimFloat.opp (PrimFloat.mul (PrimFloat.of_uint63 (Uint63.of_Z (2 ^ 62))) 2)
       else PrimFloat.opp (PrimFloat.of_uint63 (Uint63.of_Z (- z))).

(** [time.Duration(f)]: truncation towards zero. For a value that [int64]
    cannot hold Go leaves the result to the implementation; it is taken
    here as the least [int64], which is what amd64 yields. *)
Definition duration_of_float (f : float) : Z :=
  let ovf := - 2 ^ 63 in
  match Prim2SF f with
  | S754_zero _ => 0
  | S754_finite s m e =>
      let v := if decide (0 <= e) then Z.pos m * 2 ^ e
               else Z.pos m / 2 ^ (- e) in
      let v := if s then - v else v in
      if decide (- 2 ^ 63 <= v < 2 ^ 63) then v else ovf
  | _ => ovf
  end.

(** ** Client *)

Inductive ProtoVersion := V311 | V5.

(** The fields of [clientOptions] that [defaultClient] sets or that the
    functions below read. *)
Record clientOptions := ClientOptions {
  servers : list string;
  secureServers : list string;
  sendChanSize : Z;
  recvChanSize : Z;
  maxDelay : Z;
  firstDelay : Z;
  backOffFactor : float;
  dialTimeout : Z;
  keepalive : Z;
  keepaliveFactor : float;
  protoVersion : ProtoVersion;
  protoCompromise : bool;
  autoReconnect : bool
}.

(** A buffered channel: its capacity and what it holds. A send appends;
    the wait of a sender for room in a full channel is not modelled. *)
Record chan (A : Type) := Chan {
  chan_cap : Z;
  chan_buf : list A
}.
Arguments Chan {A}.
Arguments chan_cap {A}.
Arguments chan_buf {A}.


(** [ch <- x]; a nil channel ([None]) blocks for ever. *)
Definition chan_send {A} (ch : option (chan A)) (x : A)
  : outcome (option (chan A)) :=
  match ch with
  | Some c => Ret (Some (Chan (chan_cap c) (chan_buf c ++ [x])))
  | None => Blocks
  end.

(** The interface [PersistMethod] over a store of type [PS]. *)
Class PersistMethod (PS : Type) := {
  pStore : string -> Packet -> PS -> option error * PS;
  pDelete : string -> PS -> option error * PS
}.

(** A store that keeps the packets in a map and never fails. *)
#[global] Instance memPersist : PersistMethod (gmap string Packet) := {
  pStore key p m := (None, <[key := p]> m);
  pDelete key m := (None, delete key m)
}.

(** A store that keeps nothing and fails on every call. *)
#[global] Instance failPersist : PersistMethod unit := {
  pStore key p m := (Some (ErrOther "store"), m);
  pDelete key m := (Some (ErrOther "delete"), m)
}.

(** What the client does to its collaborators and channels, in the order
    in which it does it. *)
Inductive effect :=
| ENext (extra : Packet) (id : Z)
| EFree (id : Z)
| EStore (key : string) (p : Packet)
| EDelete (key : string)
| EMsg (m : message)
| ESendCh (p : Packet)
| ERecvCh (p : loc)
| ELogicSend (p : Packet)
| EWrite (p : Packet)
| EFlush
| EExitClient
| EExitConn
| EConnClose
| EGoKeepalive
| ENewTicker (d : Z)
| ENewTimer (d : Z)
| ETimerReset (d : Z)
| ETimersStop.

Section Client.
Context {PS : Type} `{!PersistMethod PS}.

(** [AsyncClient]: the fields the functions below touch. [ctxDone] says
    whether [c.ctx] is done. *)
Record AsyncClient := mkAsyncClient {
  options : clientOptions;
  msgCh : option (chan message);
  sendCh : option (chan Packet);
  recvCh : option (chan loc);
  idGen : idGenerator Packet;
  persist : PS;
  ctxDone : bool
}.

Definition with_msgCh ch (c : AsyncClient) : AsyncClient :=
  mkAsyncClient (options c) ch (sendCh c) (recvCh c) (idGen c) (persist c) (ctxDone c).
Definition with_sendCh ch (c : AsyncClient) : AsyncClient :=
  mkAsyncClient (options c) (msgCh c) ch (recvCh c) (idGen c) (persist c) (ctxDone c).
Definition with_recvCh ch (c : AsyncClient) : AsyncClient :=
  mkAsyncClient (options c) (msgCh c) (sendCh c) ch (idGen c) (persist c) (ctxDone c).
Definition with_idGen g (c : AsyncClient) : AsyncClient :=
  mkAsyncClient (options c) (msgCh c) (sendCh c) (recvCh c) g (persist c) (ctxDone c).
Definition with_persist ps (c : AsyncClient) : AsyncClient :=
  mkAsyncClient (options c) (msgCh c) (sendCh c) (recvCh c) (idGen c) ps (ctxDone c).
Definition with_ctxDone b (c : AsyncClient) : AsyncClient :=
  mkAsyncClient (options c) (msgCh c) (sendCh c) (recvCh c) (idGen c) (persist c) b.
Definition with_options o (c : AsyncClient) : AsyncClient :=
  mkAsyncClient o (msgCh c) (sendCh c) (recvCh c) (idGen c) (persist c) (ctxDone c).

(** The program state: the heap, the client, and the effects so far. *)
Record world := World {
  heap : gmap loc object;
  cli : AsyncClient;
  trace : list effect
}.

Definition emit (e : effect) (w : world) : world :=
  World (heap w) (cli w) (trace w ++ [e]).
Definition set_cli (c : AsyncClient) (w : world) : world :=
  World (heap w) c (trace w).
Definition set_heap (h : gmap loc object) (w : world) : world :=
  World h (cli w) (trace w).

(** Reads and writes through a pointer; a pointer that does not hold an
    object of the expected type cannot be dereferenced. *)
Definition load_topic (l : loc) (w : world) : outcome Topic.t :=
  match heap w !! l with Some (OTopic t) => Ret t | _ => Panics end.
Definition load_publish (l : loc) (w : world) : outcome PublishPacket.t :=
  match heap w !! l with Some (OPublish p) => Ret p | _ => Panics end.
Definition load_subscribe (l : loc) (w : world) : outcome SubscribePacket.t :=
  match heap w !! l with Some (OSubscribe s) => Ret s | _ => Panics end.
Definition load_unsub (l : loc) (w : world) : outcome UnSubPacket.t :=
  match heap w !! l with Some (OUnSub u) => Ret u | _ => Panics end.
Definition store_obj (l : loc) (o : object) (w : world) : world :=
  set_heap (<[l := o]> (heap w)) w.

(** [c.msgCh <- m] *)
Definition send_msg (m : message) (w : world) : outcome world :=
  ch ← chan_send (msgCh (cli w)) m;
  Ret (emit (EMsg m) (set_cli (with_msgCh ch (cli w)) w)).

(** Modelled from the spec: the [notify...] functions are declared with
    the event loop, outside the sources at hand. A publish, subscribe or
    unsubscribe event is put on the event channel; a persistence error is
    forwarded on the event channel, and a nil error is no event. *)
Definition notifyPubMsg (topic : string) (err : option error) (w : world)
  : outcome world := send_msg (pubMsg topic err) w.
Definition notifySubMsg (topics : list (option loc)) (err : option error)
  (w : world) : outcome world := send_msg (subMsg topics err) w.
Definition notifyUnSubMsg (names : list string) (err : option error)
  (w : world) : outcome world := send_msg (unSubMsg names err) w.
Definition notifyPersistMsg (err : option error) (w : world) : outcome world :=
  match err with
  | Some e => send_msg (persistMsg e) w
  | None => Ret w
  end.

(** [c.persist.Store(key, p)] and [c.persist.Delete(key)] *)
Definition persist_Store (key : string) (p : Packet) (w : world)
  : option error * world :=
  let '(e, ps) := pStore key p (persist (cli w)) in
  (e, emit (EStore key p) (set_cli (with_persist ps (cli w)) w)).
Definition persist_Delete (key : string) (w : world) : option error * world :=
  let '(e, ps) := pDelete key (persist (cli w)) in
  (e, emit (EDelete key) (set_cli (with_persist ps (cli w)) w)).

(** [c.idGen.next(extra)], [c.idGen.free(id)], [c.idGen.getExtra(id)] *)
Definition idGen_next (extra : Packet) (w : world) : Z * world :=
  let '(id, g) := next extra (idGen (cli w)) in
  (id, emit (ENext extra id) (set_cli (with_idGen g (cli w)) w)).
Definition idGen_free (id : Z) (w : world) : world :=
  emit (EFree id) (set_cli (with_idGen (free id (idGen (cli w))) (cli w)) w).
Definition idGen_getExtra (id : Z) (w : world) : option Packet :=
  getExtra id (idGen (cli w)).

(** [c.sendCh <- p] and [c.recvCh <- p] *)
Definition send_sendCh (p : Packet) (w : world) : outcome world :=
  ch ← chan_send (sendCh (cli w)) p;
  Ret (emit (ESendCh p) (set_cli (with_sendCh ch (cli w)) w)).
Definition send_recvCh (p : loc) (w : world) : outcome world :=
  ch ← chan_send (recvCh (cli w)) p;
  Ret (emit (ERecvCh p) (set_cli (with_recvCh ch (cli w)) w)).

(** [c.isClosing()] *)
Definition isClosing (w : world) : bool := ctxDone (cli w).

(** [c.exit()] of the client: cancels the client context. *)
Definition client_exit (w : world) : world :=
  emit EExitClient (set_cli (with_ctxDone true (cli w)) w).

(** The body of the loop of [Publish] for one argument [m]. *)
Definition Publish_body (m : option loc) (w : world) : outcome world :=
  match m with
  | None => Ret w
  | Some l =>
      p ← load_publish l w;
      let w :=
        if decide (PublishPacket.Qos p > Qos2)
        then store_obj l (OPublish (PublishPacket.mk
               (PublishPacket.TopicName p) (PublishPacket.Payload p)
               Qos2 (PublishPacket.PacketID p))) w
        else w in
      p ← load_publish l w;
      w ← (if decide (PublishPacket.Qos p <> Qos0) then
             if decide (PublishPacket.PacketID p = 0) then
               let '(id, w) := idGen_next (PublishRef l) w in
               let w := store_obj l (OPublish (PublishPacket.mk
                          (PublishPacket.TopicName p) (PublishPacket.Payload p)
                          (PublishPacket.Qos p) id)) w in
               let '(err, w) := persist_Store (sendKey id) (PublishRef l) w in
               match err with
               | Some e => notifyPersistMsg (Some e) w
               | None => Ret w
               end
             else Ret w
           else Ret w);
      send_sendCh (PublishRef l) w
  end.

Fixpoint Publish_range (msg : list (option loc)) (w : world) : outcome world :=
  match msg with
  | [] => Ret w
  | m :: msg' => w ← Publish_body m w; Publish_range msg' w
  end.

(** [c.Publish(msg...)] *)
Definition Publish (msg : list (option loc)) (w : world) : outcome world :=
  if isClosing w then Ret w else Publish_range msg w.

(** [c.Subscribe(topics...)]; the new packet gets a fresh address. *)
Definition Subscribe (topics : list (option loc)) (w : world) : outcome world :=
  if isClosing w then Ret w
  else
    let s := fresh (dom (heap w)) in
    let w := store_obj s (OSubscribe (SubscribePacket.mk topics 0)) w in
    let '(id, w) := idGen_next (SubscribeRef s) w in
    let w := store_obj s (OSubscribe (SubscribePacket.mk topics id)) w in
    send_sendCh (SubscribeRef s) w.

(** [c.UnSubscribe(topics...)] *)
Definition UnSubscribe (topics : list string) (w : world) : outcome world :=
  if isClosing w then Ret w
  else
    let u := fresh (dom (heap w)) in
    let w := store_obj u (OUnSub (UnSubPacket.mk topics 0)) w in
    let '(id, w) := idGen_next (UnSubRef u) w in
    let w := store_obj u (OUnSub (UnSubPacket.mk topics id)) w in
    send_sendCh (UnSubRef u) w.

(** [c.Destroy(force)] *)
Definition Destroy (force : bool) (w : world) : outcome world :=
  if force then Ret (client_exit w) else send_sendCh DisConnPacket w.

(** *** Construction *)

(** The default of [persist] is [NonePersist], declared with the stores. *)
Variable NonePersist : PS.

(** [Option]: a function that configures the client and may fail. *)
Definition ClientOption : Type := AsyncClient -> option error * AsyncClient.

(** [defaultClient()] *)
Definition defaultClient : AsyncClient := {|
  options := {|
    servers := [];
    secureServers := [];
    sendChanSize := 1;
    recvChanSize := 1;
    maxDelay := 2 * Minute;
    firstDelay := 5 * Second;
    backOffFactor := 1.5;
    dialTimeout := 20 * Second;
    keepalive := 2 * Minute;
    keepaliveFactor := 1.5;
    protoVersion := V311;
    protoCompromise := false;
    autoReconnect := false
  |};
  msgCh := Some (Chan 10 []);
  sendCh := None;
  recvCh := None;
  idGen := newIDGenerator;
  persist := NonePersist;
  ctxDone := false
|}.



(** *** Connecting *)

(** The case taken by the [select] of [waitForConnAck]: the context is
    done, or the net-recv channel yields a packet ([None] when it is
    closed). *)
Inductive connack_select :=
| CtxDoneCase (why : ctx_err)
| NetRecvCase (pkt : option Packet).

(** [c.waitForConnAck(ctx)]: the error returned, [None] for nil. *)
Definition waitForConnAck (ev : connack_select) : outcome (option error) :=
  match ev with
  | CtxDoneCase why => Ret (Some (ctxErr why))
  | NetRecvCase None => Ret (Some ErrDecodeBadPacket)
  | NetRecvCase (Some pkt) =>
      if decide (Type_ pkt <> CtrlConnAck) then Ret (Some ErrDecodeBadPacket)
      else
        match pkt with
        | ConnAckPacket Code =>
            if decide (Code <> CodeSuccess) then Ret (Some (connAckError Code))
            else Ret None
        | _ => Panics
        end
  end.

(** The code [connect] hands to the [ConnHandler] for a failure [err]. *)
Definition connHandlerCode (err : error) : Z :=
  match err with
  | connAckError code => code
  | _ => MaxUint8
  end.

(** One pass of the loop of [connect], from the result of [tryConnect]
    ([None]: connected) to the new failure count and the arguments
    [(code, err)] of the [ConnHandler] call. *)
Definition connect_report (res : option error) (nfail : Z)
  : Z * (Z * option error) :=
  match res with
  | Some err => (nfail + 1, (connHandlerCode err, Some err))
  | None => (0, (CodeSuccess, None))
  end.

(** The reconnect delay of [connect]; [math_Pow] stands for [math.Pow]. *)
Definition reconnectDelay (math_Pow : float -> float -> float)
  (o : clientOptions) (nfail : Z) : Z :=
  if decide (nfail > 0) then
    let delay :=
      duration_of_float
        (PrimFloat.mul (float64_of_int (firstDelay o))
           (math_Pow (backOffFactor o) (float64_of_int (nfail - 1)))) in
    if decide (delay > maxDelay o) then maxDelay o else delay
  else 0.

(** *** The logic loop *)

(** [c.send(pkt)]: the packet is offered on the logic-send channel until
    the send pump takes it or the connection's context is done. *)
Definition conn_send (pkt : Packet) (w : world) : world :=
  emit (ELogicSend pkt) w.

(** The loop of the [SubAck] case,
    [for i, v := range originSub.Topics { if i < N { v.Qos = p.Codes[i] } }];
    [Codes !! i] is [Some] exactly when [i < N]. *)
Fixpoint overlayCodes (i : nat) (topics : list (option loc)) (Codes : list Z)
  (w : world) : outcome world :=
  match topics with
  | [] => Ret w
  | v :: topics' =>
      w ← match Codes !! i with
          | Some code =>
              match v with
              | None => Panics
              | Some l =>
                  t ← load_topic l w;
                  Ret (store_obj l (OTopic (Topic.mk (Topic.Name t) code)) w)
              end
          | None => Ret w
          end;
      overlayCodes (S i) topics' Codes w
  end.

(** What [logic] does with a packet [pkt] taken from the net-recv
    channel: the [switch pkt.(type)]. *)
Definition logic_recv (pkt : Packet) (w : world) : outcome world :=
  match pkt with
  | SubAckPacket PacketID Codes =>
      match idGen_getExtra PacketID w with
      | Some (SubscribeRef o) =>
          originSub ← load_subscribe o w;
          w ← overlayCodes 0 (SubscribePacket.Topics originSub) Codes w;
          w ← notifySubMsg (SubscribePacket.Topics originSub) None w;
          let w := idGen_free PacketID w in
          let '(e, w) := persist_Delete (sendKey PacketID) w in
          notifyPersistMsg e w
      | _ => Ret w
      end
  | UnSubAckPacket PacketID =>
      match idGen_getExtra PacketID w with
      | Some (UnSubRef o) =>
          originUnSub ← load_unsub o w;
          w ← notifyUnSubMsg (UnSubPacket.TopicNames originUnSub) None w;
          let w := idGen_free PacketID w in
          let '(e, w) := persist_Delete (sendKey PacketID) w in
          notifyPersistMsg e w
      | _ => Ret w
      end
  | PublishRef l =>
      p ← load_publish l w;
      w ← send_recvCh l w;
      if decide (PublishPacket.Qos p = Qos1) then
        let w := conn_send (PubAckPacket (PublishPacket.PacketID p)) w in
        let '(e, w) := persist_Store (recvKey (PublishPacket.PacketID p)) pkt w in
        notifyPersistMsg e w
      else if decide (PublishPacket.Qos p = Qos2) then
        let w := conn_send (PubRecvPacket (PublishPacket.PacketID p)) w in
        let '(e, w) := persist_Store (recvKey (PublishPacket.PacketID p)) pkt w in
        notifyPersistMsg e w
      else Ret w
  | PubAckPacket PacketID =>
      match idGen_getExtra PacketID w with
      | Some (PublishRef o) =>
          originPub ← load_publish o w;
          if decide (PublishPacket.Qos originPub = Qos1) then
            w ← notifyPubMsg (PublishPacket.TopicName originPub) None w;
            let w := idGen_free PacketID w in
            let '(e, w) := persist_Delete (sendKey PacketID) w in
            notifyPersistMsg e w
          else Ret w
      | _ => Ret w
      end
  | PubRecvPacket PacketID =>
      match idGen_getExtra PacketID w with
      | Some (PublishRef o) =>
          originPub ← load_publish o w;
          if decide (PublishPacket.Qos originPub = Qos2)
          then Ret (conn_send (PubRelPacket PacketID) w)
          else Ret w
      | _ => Ret w
      end
  | PubRelPacket PacketID =>
      match idGen_getExtra PacketID w with
      | Some (PublishRef o) =>
          originPub ← load_publish o w;
          if decide (PublishPacket.Qos originPub = Qos2) then
            let w := conn_send (PubCompPacket PacketID) w in
            let '(e, w) := persist_Store (recvKey PacketID) pkt w in
            notifyPersistMsg e w
          else Ret w
      | _ => Ret w
      end
  | PubCompPacket PacketID =>
      match idGen_getExtra PacketID w with
      | Some (PublishRef o) =>
          originPub ← load_publish o w;
          if decide (PublishPacket.Qos originPub = Qos2) then
            let w := conn_send (PubRelPacket PacketID) w in
            w ← notifyPubMsg (PublishPacket.TopicName originPub) None w;
            let w := idGen_free PacketID w in
            let '(e, w) := persist_Delete (sendKey PacketID) w in
            notifyPersistMsg e w
          else Ret w
      | _ => Ret w
      end
  | _ => Ret w
  end.

(** [logic] before its loop: the keepalive goroutine is started if
    required. *)
Definition logic_start (w : world) : world :=
  if decide (keepalive (options (cli w)) > 0) then emit EGoKeepalive w
  else w.

(** *** The send pump *)




(** *** The keepalive watchdog *)

(** [c.parent.options.keepalive * 3 / 4] in [time.Duration] arithmetic. *)
Definition keepalive_pulse (o : clientOptions) : Z :=
  Z.quot (int64 (keepalive o * 3)) 4.

(** [time.Duration(float64(keepalive) * keepaliveFactor)] *)
Definition keepalive_timeout (o : clientOptions) : Z :=
  duration_of_float
    (PrimFloat.mul (float64_of_int (keepalive o)) (keepaliveFactor o)).

(** Where [keepalive] waits: at its outer [select], at the inner one
    that follows a ping, or nowhere, having returned. *)
Inductive keepalive_state := KaSelect | KaAwait | KaReturned.

(** What can wake it: the connection's context is done, the ticker
    fires, the receive pump pulses on [keepaliveC] ([more = false] when
    the channel is closed), or the timeout timer fires. *)
Inductive keepalive_event :=
| KaCtxDone
| KaTick
| KaPulse (more : bool)
| KaTimeout.

(** The deferred function of [keepalive]. *)
Definition keepalive_defer (w : world) : world := emit ETimersStop w.

(** [keepalive] up to its loop; [time.NewTicker] panics unless its
    argument is positive. *)
Definition keepalive_start (w : world) : outcome world :=
  let o := options (cli w) in
  if decide (keepalive_pulse o <= 0) then Panics
  else Ret (emit (ENewTimer (keepalive_timeout o))
              (emit (ENewTicker (keepalive_pulse o)) w)).

(** One wake-up of [keepalive]; [None] when the state does not wait for
    the event. *)
Definition keepalive_step (st : keepalive_state) (ev : keepalive_event)
  (w : world) : option (keepalive_state * world) :=
  match st, ev with
  | KaSelect, KaCtxDone => Some (KaReturned, keepalive_defer w)
  | KaSelect, KaTick => Some (KaAwait, conn_send PingReqPacket w)
  | KaAwait, KaCtxDone => Some (KaReturned, keepalive_defer w)
  | KaAwait, KaPulse false => Some (KaReturned, keepalive_defer w)
  | KaAwait, KaPulse true =>
      Some (KaSelect,
            emit (ETimerReset (keepalive_timeout (options (cli w)))) w)
  | KaAwait, KaTimeout =>
      Some (KaReturned, keepalive_defer (emit EExitConn w))
  | _, _ => None
  end.

(** [keepalive] run against a list of wake-ups. *)
Fixpoint keepalive_run (st : keepalive_state) (evs : list keepalive_event)
  (w : world) : option (keepalive_state * world) :=
  match evs with
  | [] => Some (st, w)
  | ev :: evs' =>
      match keepalive_step st ev w with
      | Some (st', w') => keepalive_run st' evs' w'
      | None => None
      end
  end.
End Client.

Arguments AsyncClient : clear implicits.
Arguments world : clear implicits.
Arguments ClientOption : clear implicits.

(** ** Which packets travel on which channel

    [Publish], [Subscribe], [UnSubscribe] and [Destroy] are the only
    writers of the shared outbound channel [sendCh]; [c.send] is the only
    writer of the session's logic-send channel, called by [tryConnect]
    with a [ConnPacket], by [logic] with acknowledgements and by
    [keepalive] with a ping request. *)

Definition on_sendCh (pkt : Packet) : bool :=
  match pkt with
  | PublishRef _ | SubscribeRef _ | UnSubRef _ | DisConnPacket => true
  | _ => false
  end.

Definition on_logicSendC (pkt : Packet) : bool :=
  match pkt with
  | ConnPacket | PubAckPacket _ | PubRecvPacket _ | PubRelPacket _
  | PubCompPacket _ | PingReqPacket => true
  | _ => false
  end.

(** ** Sample inputs *)

(** An option that adds a plain server, and one that fails. *)
Definition sample_server_option {PS} (server : string) : ClientOption PS :=
  fun c =>
    let o := options c in
    (None,
     with_options
       (ClientOptions (servers o ++ [server]) (secureServers o)
          (sendChanSize o) (recvChanSize o) (maxDelay o) (firstDelay o)
          (backOffFactor o) (dialTimeout o) (keepalive o) (keepaliveFactor o)
          (protoVersion o) (protoCompromise o) (autoReconnect o)) c).


(** A client as [NewClient] returns it for one server, over the store
    [memPersist], and the same client once its context is cancelled. *)
Definition sample_client : AsyncClient (gmap string Packet) :=
  with_recvCh (Some (Chan 1 []))
    (with_sendCh (Some (Chan 1 []))
       (snd (sample_server_option "broker:1883" (defaultClient ∅)))).

Definition sample_closing_client : AsyncClient (gmap string Packet) :=
  with_ctxDone true sample_client.

(** A heap with one publish packet at address 1 (qos 3, no id yet) and one
    topic at address 2 (requested qos 0). *)
Definition sample_heap : gmap loc object :=
  {[ 1%positive := OPublish (PublishPacket.mk "t" [] 3 0);
     2%positive := OTopic (Topic.mk "a/b" 0) ]}.

Definition sample_world : world (gmap string Packet) :=
  World sample_heap sample_client [].

Definition sample_closing_world : world (gmap string Packet) :=
  World sample_heap sample_closing_client [].

(** The same heap with a client whose store fails on every call. *)
Definition sample_failing_store_world : world unit :=
  World sample_heap
    (with_recvCh (Some (Chan 1 []))
       (with_sendCh (Some (Chan 1 [])) (defaultClient tt)))
    [].

(** The value a call returns, [d] if it does not return. *)
Definition run {A} (d : A) (m : outcome A) : A :=
  match m with Ret a => a | _ => d end.

(** The client after [Subscribe] of the topic at address 2. *)
Definition sample_subscribed_world : world (gmap string Packet) :=
  run sample_world (Subscribe [Some 2%positive] sample_world).

(** The event on the event channel for the result [e] of a call to the
    store: one event for an error, none for nil. *)
Definition persist_events (e : option error) : list effect :=
  match e with Some e => [EMsg (persistMsg e)] | None => [] end.

(** ** Reading traces *)

(** [w'] comes from [w] by effects that all satisfy [P]. *)
Definition only {PS} (P : effect -> Prop) (w w' : world PS) : Prop :=
  exists tr, trace w' = trace w ++ tr /\ Forall P tr.

Definition sendCh_ok (e : effect) : Prop :=
  match e with ESendCh p => on_sendCh p = true | _ => True end.

Definition logicSend_ok (e : effect) : Prop :=
  match e with ELogicSend p => on_logicSendC p = true | _ => True end.

(** Ping requests and session cancellations among effects, ticks and
    timeouts among wake-ups. *)
Definition is_ping (e : effect) : bool :=
  match e with ELogicSend PingReqPacket => true | _ => false end.
Definition is_exit (e : effect) : bool :=
  match e with EExitConn => true | _ => false end.
Definition is_tick (ev : keepalive_event) : bool :=
  match ev with KaTick => true | _ => false end.
Definition is_timeout (ev : keepalive_event) : bool :=
  match ev with KaTimeout => true | _ => false end.

(** ** Fixed-width integers and length-prefixed data *)

(** [putUint16(d, v)]: [binary.BigEndian.PutUint16] checks [d[1]] and
    writes the two bytes into the array of [d]; the slice afterwards,
    [None] for the panic. *)
Definition putUint16 (d : slice) (v : Z) : option slice :=
  _ ← index d 1;
  Some {| backing := <[1%nat := to_byte v]>
                       (<[0%nat := to_byte (Z.shiftr v 8)]> (backing d));
          len := len d |}.

(** [putUint32(d, v)] *)
Definition putUint32 (d : slice) (v : Z) : option slice :=
  _ ← index d 3;
  Some {| backing := <[3%nat := to_byte v]>
                       (<[2%nat := to_byte (Z.shiftr v 8)]>
                          (<[1%nat := to_byte (Z.shiftr v 16)]>
                             (<[0%nat := to_byte (Z.shiftr v 24)]> (backing d))));
          len := len d |}.

(** [getUint32(d)], that is [binary.BigEndian.Uint32(d)] *)
Definition getUint32 (d : slice) : option Z :=
  b3 ← index d 3;
  b2 ← index d 2;
  b1 ← index d 1;
  b0 ← index d 0;
  Some (Z.lor (Z.lor (Z.lor (u8 b3) (Z.shiftl (u8 b2) 8))
                 (Z.shiftl (u8 b1) 16))
          (Z.shiftl (u8 b0) 24)).

(** [encodeBytesWithLen(data)]: the contents of the slice returned. *)
Definition encodeBytesWithLen (data : list byte) : list byte :=
  let l := Z.of_nat (length data) in
  [to_byte (Z.shiftr l 8); to_byte l] ++ data.

(** [encodeStringWithLen(str)]; a Go string is its bytes. *)
Definition encodeStringWithLen (str : list byte) : list byte :=
  encodeBytesWithLen str.

(** [len(data)] for a slice that may be nil ([None]). *)
Definition slice_len (data : option slice) : Z :=
  match data with Some s => Z.of_nat (len s) | None => 0 end.

(** [getBinaryData(data)]: the three results, [None] for a nil slice or a
    nil error; the outer [None] is a panic. *)
Definition getBinaryData (data : option slice)
  : option (option slice * option slice * option error) :=
  let dataLen := slice_len data in
  if decide (dataLen < 2) then Some (None, None, Some ErrDecodeBadPacket)
  else
    s ← data;
    v ← getUint16 s;
    let end_ := v + 2 in
    if decide (end_ > dataLen) then Some (None, None, Some ErrDecodeBadPacket)
    else
      b ← reslice s 2 end_;
      next ← reslice_from s end_;
      Some (Some b, Some next, None).

(** [getStringData(data)]; [string(b)] is the contents of [b]. *)
Definition getStringData (data : option slice)
  : option (list byte * option slice * option error) :=
  '(b, next, err) ← getBinaryData data;
  match err with
  | None => Some (from_option bytes [] b, next, None)
  | Some e => Some ([], None, Some e)
  end.

(** ** User properties *)

(** [UserProps], a [map[string][]string]. *)
Abbreviation UserProps := (gmap (list byte) (list (list byte))).

Definition inspect {A} (a : A) : {b | a = b} := exist _ a eq_refl.

(** The measure under which the loop of [getUserProps] ends. *)
Definition next_size (next : option slice) : nat :=
  match next with Some s => S (len s) | None => 0 end.

(** The loop of [getUserProps], entered at its condition [next != nil]:
    the body reads a value and appends it under [strKey], the post
    statement reads the next key. The errors of [getStringData] are
    dropped, as the source drops them. *)
Equations? getUserProps_loop (strKey : list byte) (next : option slice)
  (props : UserProps) : option UserProps by wf (next_size next) lt :=
  getUserProps_loop strKey None props := Some props;
  getUserProps_loop strKey (Some s) props
    with inspect (getStringData (Some s)) => {
    | exist _ None _ := None;
    | exist _ (Some (val, next1, _)) E1
        with inspect (getStringData next1) => {
      | exist _ None _ := None;
      | exist _ (Some (strKey', next2, _)) E2 :=
          getUserProps_loop strKey' next2
            (<[strKey := default [] (props !! strKey) ++ [val]]> props) } }.
Proof.
  assert (Hdec : forall d x n e, getStringData d = Some (x, Some n, e) ->
                 (Z.of_nat (len n) + 2 <= slice_len d)).
  { clear. intros d x n e. unfold getStringData, getBinaryData.
    destruct (decide (slice_len d < 2)); cbn; [discriminate|].
    destruct d as [s|]; cbn; [|discriminate].
    destruct (getUint16 s) as [v|] eqn:Ev; cbn; [|discriminate].
    assert (0 <= v).
    { unfold getUint16 in Ev.
      destruct (index s 1) as [b1|]; cbn in Ev; [|discriminate].
      destruct (index s 0) as [b0|]; cbn in Ev; [|discriminate].
      injection Ev as <-. apply Z.lor_nonneg. unfold u8.
      split; [lia|apply Z.shiftl_nonneg; lia]. }
    destruct (decide (v + 2 > Z.of_nat (len s))); cbn; [discriminate|].
    destruct (reslice s 2 (v + 2)); cbn; [|discriminate].
    unfold reslice_from, reslice.
    destruct (decide (v + 2 <= Z.of_nat (len s))); cbn; [|discriminate].
    destruct (decide _); cbn; [|discriminate].
    intros [= _ <- _]. cbn. lia. }
  destruct next2 as [s2|]; cbn; [|lia].
  apply Hdec in E2. destruct next1 as [s1|]; cbn in E2.
  - apply Hdec in E1. cbn in E1. lia.
  - lia.
Qed.

(** [getUserProps(data)] *)
Definition getUserProps (data : option slice) : option UserProps :=
  '(strKey, next, _) ← getStringData data;
  getUserProps_loop strKey next ∅.

(** What one key/value pair does to the map:
    [props[k] = append(props[k], v)]. *)
Definition addUserProp (props : UserProps) (kv : list byte * list byte)
  : UserProps :=
  <[kv.1 := default [] (props !! kv.1) ++ [kv.2]]> props.

(** The wire form of a list of pairs: each key and each value with its
    length in front. *)
Definition encodeUserProps (kvs : list (list byte * list byte)) : list byte :=
  flat_map (fun kv => encodeStringWithLen kv.1 ++ encodeStringWithLen kv.2) kvs.

(** The keys that have a case in the [switch] of [getRawProps]. *)
Definition recognizedKeys : list byte :=
  [propKeyPayloadFormatIndicator; propKeyMessageExpiryInterval;
   propKeyContentType; propKeyRespTopic; propKeyCorrelationData;
   propKeySubID; propKeySessionExpiryInterval; propKeyAssignedClientID;
   propKeyServerKeepalive; propKeyAuthMethod; propKeyAuthData;
   propKeyReqProblemInfo; propKeyWillDelayInterval; propKeyReqRespInfo;
   propKeyRespInfo; propKeyServerRef; propKeyReasonString; propKeyMaxRecv;
   propKeyMaxTopicAlias; propKeyTopicAlias; propKeyMaxQos;
   propKeyRetainAvail; propKeyUserProps; propKeyMaxPacketSize;
   propKeyWildcardSubAvail; propKeySubIDAvail; propKeySharedSubAvail].

(** ** Reading states *)

(** The state after the terminal acknowledgement of a flow: the event
    [m] is emitted, [id] is freed and [S<id>] is deleted. *)
Definition flow_done {PS} `{!PersistMethod PS} (m : message) (id : Z)
  (w w' : world PS) : Prop :=
  heap w' = heap w
  /\ idGen (cli w') = free id (idGen (cli w))
  /\ persist (cli w') = snd (pDelete (sendKey id) (persist (cli w)))
  /\ sendCh (cli w') = sendCh (cli w)
  /\ ctxDone (cli w') = ctxDone (cli w)
  /\ trace w' = trace w
       ++ [EMsg m; EFree id; EDelete (sendKey id)]
       ++ persist_events (fst (pDelete (sendKey id) (persist (cli w)))).

(** What the logic loop may do to its collaborators: it stores under
    receive keys only and deletes send keys only, it hands to [c.send]
    only the packets of [on_logicSendC], and it neither allocates an id
    nor writes to the outbound channel, the connection or a context. *)
Definition logic_effect_ok (e : effect) : Prop :=
  match e with
  | EStore key _ => exists id, key = recvKey id
  | EDelete key => exists id, key = sendKey id
  | ELogicSend p => on_logicSendC p = true
  | EFree _ | EMsg _ | ERecvCh _ => True
  | _ => False
  end.

(** What the logic loop leaves alone in the state: the options, the
    outbound channel, the client's context and the id counter; the side
    table only loses entries; on the heap only the granted qos of topics
    changes. *)
Definition logic_frame {PS} (w w' : world PS) : Prop :=
  options (cli w') = options (cli w)
  /\ sendCh (cli w') = sendCh (cli w)
  /\ ctxDone (cli w') = ctxDone (cli w)
  /\ nextID (idGen (cli w')) = nextID (idGen (cli w))
  /\ usedIDs (idGen (cli w')) ⊆ usedIDs (idGen (cli w))
  /\ forall l,
       heap w' !! l = heap w !! l
       \/ exists t t', heap w !! l = Some (OTopic t)
                       /\ heap w' !! l = Some (OTopic t')
                       /\ Topic.Name t' = Topic.Name t.

(** A client and one publish packet of the given qos at address 1, with
    no id yet; and the same once the packet has been handed to [Publish]. *)
Definition sample_publish_world (qos : Z) : world (gmap string Packet) :=
  World {[ 1%positive := OPublish (PublishPacket.mk "t" [] qos 0) ]}
    sample_client [].

Definition sample_inflight_world (qos : Z) : world (gmap string Packet) :=
  run (sample_publish_world qos)
    (Publish [Some 1%positive] (sample_publish_world qos)).

(** The client after [UnSubscribe] of one topic name. *)
Definition sample_unsubscribed_world : world (gmap string Packet) :=
  run sample_world (UnSubscribe ["a/b"%string] sample_world).

(** ** Timeouts of whole seconds *)

(** [P 0 && P 1 && ... && P (n - 1)] *)
Definition all_below (P : Z -> bool) (n : N) : bool :=
  fst (N.iter n (fun '(b, i) => (b && P i, i + 1)) (true, 0)).

(** Whether [time.Duration(float64(interval) * factor)], for an interval
    of [s] seconds, is exactly [num / 2] times the interval. *)
Definition timeout_exact (factor : float) (num : Z) (s : Z) : bool :=
  2 * duration_of_float (PrimFloat.mul (float64_of_int (s * Second)) factor)
  =? num * (s * Second).

(** * Properties *)

(** ** Variable-length integers *)

Lemma u8_to_byte (x : Z) : 0 <= x < 256 -> u8 (to_byte x) = x.
Proof.
  intros Hx. unfold u8, to_byte.
  rewrite Z.mod_small by lia.
  destruct (Byte.of_N (Z.to_N x)) as [b|] eqn:E.
  - apply Byte.to_of_N in E. lia.
  - apply Byte.of_N_None_iff in E. lia.
Qed.

Lemma u8_range (b : byte) : 0 <= u8 b < 256.
Proof. unfold u8. pose proof (Byte.to_N_bounded b). lia. Qed.

Lemma split_low7 (n : Z) : 0 <= n ->
  Z.lor (n mod 128) (Z.shiftl (n / 128) 7) = n.
Proof.
  intros Hn. apply Z.bits_inj'. intros i Hi.
  rewrite Z.lor_spec.
  change 128 with (2 ^ 7).
  destruct (Z.lt_ge_cases i 7).
  - rewrite Z.mod_pow2_bits_low by lia.
    rewrite Z.shiftl_spec_low by lia. apply orb_false_r.
  - rewrite Z.mod_pow2_bits_high by lia.
    rewrite Z.shiftl_spec by lia.
    rewrite Z.div_pow2_bits by lia. simpl. f_equal. lia.
Qed.

Lemma land_low_127 (x : Z) : 0 <= x < 128 -> Z.land x 127 = x.
Proof.
  intros. change 127 with (Z.ones 7). rewrite Z.land_ones by lia.
  apply Z.mod_small. lia.
Qed.

Lemma land_low_128 (x : Z) : 0 <= x < 128 -> Z.land x 128 = 0.
Proof.
  intros. apply Z.bits_inj'. intros i Hi. rewrite Z.land_spec, Z.bits_0.
  destruct (Z.eq_dec i 7) as [->|].
  - replace (Z.testbit x 7) with false; [reflexivity|].
    symmetry. apply Z.bits_above_log2; [lia|].
    destruct (Z.eq_dec x 0) as [->|]; [simpl; lia|].
    apply Z.log2_lt_pow2; lia.
  - change 128 with (2 ^ 7). rewrite Z.pow2_bits_false by lia. apply andb_false_r.
Qed.

Lemma land_cont_127 (x : Z) : 0 <= x < 128 -> Z.land (Z.lor x 128) 127 = x.
Proof.
  intros. rewrite Z.land_lor_distr_l, land_low_127 by lia.
  change (Z.land 128 127) with 0. apply Z.lor_0_r.
Qed.

Lemma land_cont_128 (x : Z) : 0 <= x < 128 -> Z.land (Z.lor x 128) 128 = 128.
Proof.
  intros. rewrite Z.land_lor_distr_l, land_low_128 by lia. reflexivity.
Qed.

Lemma lor_cont_range (x : Z) : 0 <= x < 128 -> 0 <= Z.lor x 128 < 256.
Proof.
  intros. pose proof (Z.add_lor_land x 128) as E.
  rewrite land_low_128 in E by lia. lia.
Qed.

Lemma writeVarInt_loop_decodes (n : Z) :
  0 < n -> forall w,
  exists bs, writeVarInt_loop n w = w ++ bs /\ bs <> [] /\
    (forall k, 0 <= k -> n < 128 ^ k -> Z.of_nat (length bs) <= k) /\
    (forall m acc rest, 0 <= m -> (7 | m) -> m + 7 * Z.of_nat (length bs) <= 28 ->
       getRemainLength_loop (bs ++ rest) acc m
       = ((Z.lor acc (Z.shiftl n m), m / 7 + Z.of_nat (length bs)), rest)).
Proof.
  intros Hpos. assert (Hn : 0 <= n) by lia. revert Hpos.
  pattern n. apply Z_lt_induction; [|exact Hn].
  clear n Hn. intros n IH Hpos w.
  assert (Hm : 0 <= n mod 128 < 128) by (apply Z.mod_pos_bound; lia).
  assert (Hd : 0 <= n / 128) by (apply Z.div_pos; lia).
  assert (Hlt : n / 128 < n) by (apply Z.div_lt; lia).
  rewrite writeVarInt_loop_equation_1.
  destruct (Z_gt_dec n 0) as [Hg|]; [|lia].
  cbn zeta beta iota delta [writeVarInt_loop_unfold_clause_1].
  destruct (Z_gt_dec (n / 128) 0) as [Hgt|Hle].
  - (* more bytes follow *)
    destruct (IH (n / 128) ltac:(lia) ltac:(lia)
                (w ++ [to_byte (Z.lor (n mod 128) 128)]))
      as (bs & Hbs & Hne & Hlen & Hdec).
    exists (to_byte (Z.lor (n mod 128) 128) :: bs).
    split; [rewrite Hbs, <- app_assoc; reflexivity|].
    split; [discriminate|]. split.
    + intros k Hk Hnk. cbn [length]. rewrite Nat2Z.inj_succ.
      assert (1 <= k).
      { destruct (Z.eq_dec k 0) as [->|]; [simpl in Hnk; lia|lia]. }
      assert (Z.of_nat (length bs) <= k - 1); [|lia].
      apply Hlen; [lia|].
      apply Z.div_lt_upper_bound; [lia|].
      replace k with (Z.succ (k - 1)) in Hnk by lia.
      rewrite Z.pow_succ_r in Hnk by lia. exact Hnk.
    + intros m acc rest Hm0 Hdiv Hfit. cbn [length] in Hfit |- *.
      rewrite Nat2Z.inj_succ in Hfit |- *.
      assert (0 < Z.of_nat (length bs)).
      { destruct bs; [congruence|cbn; lia]. }
      cbn [app getRemainLength_loop].
      destruct (decide (m < 27)) as [_|]; [|lia].
      rewrite u8_to_byte by (apply lor_cont_range; lia).
      rewrite land_cont_127, land_cont_128 by lia.
      destruct (decide (128 = 0)) as [|_]; [lia|].
      rewrite Hdec; [|lia|apply Z.divide_add_r; [exact Hdiv|exists 1; lia]|lia].
      f_equal. f_equal.
      * rewrite <- Z.lor_assoc. f_equal.
        rewrite <- (split_low7 n) at 3 by lia.
        rewrite Z.shiftl_lor. f_equal.
        rewrite Z.shiftl_shiftl by lia. f_equal. lia.
      * destruct Hdiv as [q ->].
        replace (q * 7 + 7) with ((q + 1) * 7) by lia.
        rewrite !Z.div_mul by lia. lia.
  - (* the last byte *)
    assert (Hz : n / 128 = 0) by lia.
    assert (Hsmall : n < 128).
    { destruct (Z.lt_ge_cases n 128); [assumption|].
      assert (1 <= n / 128) by (apply Z.div_le_lower_bound; lia). lia. }
    rewrite writeVarInt_loop_equation_1.
    destruct (Z_gt_dec (n / 128) 0) as [|Hng]; [lia|].
    cbn zeta beta iota delta [writeVarInt_loop_unfold_clause_1].
    exists [to_byte (n mod 128)].
    split; [reflexivity|]. split; [discriminate|]. split.
    + intros k Hk Hnk. cbn [length].
      destruct (Z.eq_dec k 0) as [->|]; [simpl in Hnk; lia|lia].
    + intros m acc rest Hm0 Hdiv Hfit. cbn [length] in Hfit |- *.
      cbn [app getRemainLength_loop].
      destruct (decide (m < 27)) as [_|]; [|lia].
      rewrite u8_to_byte by lia.
      rewrite land_low_127, land_low_128 by lia.
      destruct (decide (0 = 0)) as [_|]; [|lia].
      rewrite Z.mod_small by lia. reflexivity.
Qed.


Lemma getRemainLength_loop_consumes (r : list byte) :
  forall acc m, 0 <= m -> (7 | m) -> m <= 28 -> 0 <= acc < 2 ^ m ->
  let res := getRemainLength_loop r acc m in
  (exists k : nat, Z.of_nat k <= (28 - m) / 7 /\ snd res = drop k r)
  /\ 0 <= fst (fst res) < 2 ^ 28.
Proof.
  induction r as [|b r IH]; intros acc m Hm0 Hdiv Hm Hacc; cbn zeta.
  - assert (0 <= (28 - m) / 7) by (apply Z.div_pos; lia).
    cbn [getRemainLength_loop]. destruct (decide (m < 27)).
    + cbn [fst snd]. change (2 ^ 28) with 268435456.
      split; [exists 0%nat; split; [lia|reflexivity]|lia].
    + cbn [fst snd]. assert (m = 28) as -> by (destruct Hdiv as [q ->]; lia).
      split; [exists 0%nat; split; [lia|reflexivity]|exact Hacc].
  - cbn [getRemainLength_loop]. destruct (decide (m < 27)) as [Hlt|Hge].
    + pose proof (u8_range b) as Hb.
      assert (Hlow : 0 <= Z.land (u8 b) 127 < 2 ^ 7).
      { change 127 with (Z.ones 7). rewrite Z.land_ones by lia.
        apply Z.mod_pos_bound. lia. }
      assert (Hm21 : m <= 21) by (destruct Hdiv as [q ->]; lia).
      assert (Hone : 1 <= (28 - m) / 7) by (apply Z.div_le_lower_bound; lia).
      assert (Hnew : 0 <= Z.lor acc (Z.shiftl (Z.land (u8 b) 127) m) < 2 ^ (m + 7)).
      { assert (0 <= Z.lor acc (Z.shiftl (Z.land (u8 b) 127) m)).
        { apply Z.lor_nonneg. split; [lia|]. apply Z.shiftl_nonneg. lia. }
        split; [lia|].
        destruct (Z.eq_dec (Z.lor acc (Z.shiftl (Z.land (u8 b) 127) m)) 0) as [->|Hnz];
          [apply Z.pow_pos_nonneg; lia|].
        apply Z.log2_lt_pow2; [lia|].
        rewrite Z.log2_lor; [|lia|apply Z.shiftl_nonneg; lia].
        apply Z.max_lub_lt.
        - destruct (Z.eq_dec acc 0) as [->|]; [simpl; lia|].
          assert (Z.log2 acc < m) by (apply Z.log2_lt_pow2; lia). lia.
        - destruct (Z.eq_dec (Z.land (u8 b) 127) 0) as [->|].
          + rewrite Z.shiftl_0_l. simpl. lia.
          + rewrite Z.log2_shiftl by lia.
            assert (Z.log2 (Z.land (u8 b) 127) < 7) by (apply Z.log2_lt_pow2; lia).
            lia. }
      destruct (decide (Z.land (u8 b) 128 = 0)).
      * cbn [fst snd]. split; [exists 1%nat; split; [lia|reflexivity]|].
        split; [lia|]. eapply Z.lt_le_trans; [apply Hnew|].
        apply Z.pow_le_mono_r; lia.
      * specialize (IH (Z.lor acc (Z.shiftl (Z.land (u8 b) 127) m)) (m + 7)
                      ltac:(lia)
                      ltac:(apply Z.divide_add_r; [exact Hdiv|exists 1; lia])
                      ltac:(lia) Hnew).
        cbn zeta in IH. destruct IH as [(k & Hk & Hdrop) IH2].
        split; [|exact IH2]. exists (S k). split; [|exact Hdrop].
        replace (28 - m) with ((28 - (m + 7)) + 1 * 7) by lia.
        rewrite Z.div_add by lia. lia.
    + cbn [fst snd]. assert (m = 28) as -> by (destruct Hdiv as [q ->]; lia).
      change ((28 - 28) / 7) with 0.
      split; [exists 0%nat; split; [lia|reflexivity]|exact Hacc].
Qed.

(** C7 (as amended). [writeVarInt] refuses every value below 0 or above
    268,435,455 with [ErrEncodeLargePacket] and writes nothing then; for
    every value in 0..268,435,455 it writes one to four bytes, and
    [getRemainLength] reads exactly those bytes back to the value and to
    their number. [getRemainLength] has no error to report for a length
    that goes on after four bytes: it takes at most four bytes from the
    reader, leaves what follows unread, and its result is at most
    268,435,455. *)
Theorem varint_limit_and_roundtrip (n : Z) (w rest : list byte) :
  (if decide (0 <= n <= maxMsgSize)
   then exists bs,
          writeVarInt n w = (None, w ++ bs)
          /\ (1 <= length bs <= 4)%nat
          /\ getRemainLength_reader (bs ++ rest)
             = ((n, Z.of_nat (length bs)), rest)
   else writeVarInt n w = (Some ErrEncodeLargePacket, w))
  /\ (exists k : nat,
        (k <= 4)%nat /\ snd (getRemainLength_reader rest) = drop k rest)
  /\ 0 <= fst (getRemainLength rest) <= maxMsgSize.
Proof.
  split; [|split].
  - unfold writeVarInt, maxMsgSize. destruct (decide (0 <= n <= 268435455)) as [Hin|Hout].
    + destruct (decide (n < 0 \/ n > 268435455)) as [|_]; [lia|].
      destruct (decide (n = 0)) as [->|Hnz].
      * exists [Byte.x00]. split; [reflexivity|]. split; [cbn; lia|reflexivity].
      * destruct (writeVarInt_loop_decodes n ltac:(lia) w)
          as (bs & Hbs & Hne & Hlen & Hdec).
        exists bs. split; [rewrite Hbs; reflexivity|].
        assert (Hlen4 : Z.of_nat (length bs) <= 4).
        { apply Hlen; [lia|]. change (128 ^ 4) with 268435456. lia. }
        split.
        -- destruct bs; [congruence|cbn [length] in *; lia].
        -- unfold getRemainLength_reader.
           rewrite Hdec; [|lia|exists 0; lia|lia].
           rewrite Z.shiftl_0_r, Z.lor_0_l. reflexivity.
    + destruct (decide (n < 0 \/ n > 268435455)) as [_|]; [reflexivity|lia].
  - destruct (getRemainLength_loop_consumes rest 0 0) as [(k & Hk & Hdrop) _];
      [lia|exists 0; lia|lia|simpl; lia|].
    exists k. split; [|exact Hdrop]. change ((28 - 0) / 7) with 4 in Hk. lia.
  - destruct (getRemainLength_loop_consumes rest 0 0) as [_ Hval];
      [lia|exists 0; lia|lia|simpl; lia|].
    unfold getRemainLength, getRemainLength_reader, maxMsgSize.
    cbn zeta in Hval. change (2 ^ 28) with 268435456 in Hval. lia.
Qed.

(** C7, the claim as stated fails: after four bytes that all carry the
    continuation bit [getRemainLength] reports no error (its only failure
    result is (0, 0), for a reader that runs dry); it returns the 28 bits
    read so far and leaves the fifth byte in the reader. *)
Lemma getRemainLength_fifth_byte_no_error :
  getRemainLength_reader [Byte.xff; Byte.xff; Byte.xff; Byte.xff; Byte.x7f]
  = ((268435455, 5), [Byte.x7f]).
Proof. reflexivity. Qed.

(** ** Packet-id allocator *)

(** Without a collision [next] behaves as specified: the candidate id is
    in 1..65535, it was not live, and it is now bound to [extra]. *)
Lemma next_no_collision {Extra} (extra : Extra) (g : idGenerator Extra) :
  let v := uint16 (uint32 (nextID g + 1)) in
  let id := if decide (v = 0) then 1 else v in
  usedIDs g !! id = None ->
  1 <= id <= 65535
  /\ fst (next extra g) = id
  /\ usedIDs (snd (next extra g)) = <[id := extra]> (usedIDs g).
Proof.
  cbn zeta. intros Hfree. unfold next, AddUint32, StoreUint32, LoadOrStore.
  cbn [nextID usedIDs].
  assert (0 <= uint16 (uint32 (nextID g + 1)) < 65536)
    by (apply Z.mod_pos_bound; lia).
  destruct (decide (uint16 (uint32 (nextID g + 1)) = 0)) as [E|E];
    cbn [nextID usedIDs]; rewrite Hfree; cbn; (split; [lia|auto]).
Qed.

Lemma uint16_succ_ne (n : Z) : uint16 (uint32 (n + 1)) <> uint16 (uint32 n).
Proof.
  unfold uint16, uint32.
  change 4294967296 with (65536 * 65536).
  rewrite !Z.rem_mul_r by lia.
  rewrite !(Z.mul_comm 65536), !Z.mod_add by lia.
  rewrite !Z.mod_mod by lia.
  intros H.
  assert (E : (n + 1) mod 65536 = (n mod 65536 + 1) mod 65536).
  { rewrite Z.add_mod_idemp_l by lia. reflexivity. }
  rewrite E in H.
  pose proof (Z.mod_pos_bound n 65536 ltac:(lia)).
  destruct (Z.eq_dec (n mod 65536) 65535) as [E1|E1].
  - rewrite E1 in H. change ((65535 + 1) mod 65536) with 0 in H. lia.
  - rewrite Z.mod_small in H by lia. lia.
Qed.

Lemma uint32_idem (n : Z) : uint32 (uint32 n) = uint32 n.
Proof. unfold uint32. apply Z.mod_mod. lia. Qed.

(** Inside the probing loop the id returned is never the id bound: when
    a probe finds a free id and binds it, the post statement of the loop
    has moved [id] on before it is returned. *)
Lemma next_loop_returns_unbound {Extra} (extra : Extra) (rem : nat) :
  forall (id : Z) (g : idGenerator Extra),
  id = uint16 (uint32 (nextID g)) ->
  usedIDs (snd (next_loop rem extra id true g)) !! fst (next_loop rem extra id true g)
  = usedIDs g !! fst (next_loop rem extra id true g).
Proof.
  induction rem as [|rem IH]; intros id g Hid; cbn [next_loop].
  - reflexivity.
  - unfold LoadOrStore, AddUint32.
    destruct (usedIDs g !! id) as [x|] eqn:Hlive; cbn [nextID usedIDs].
    + rewrite IH; [reflexivity|]. cbn [nextID].
      rewrite uint32_idem. reflexivity.
    + destruct rem; cbn [next_loop fst snd usedIDs];
        (rewrite lookup_insert_ne; [reflexivity|]);
        rewrite Hid; intros E; symmetry in E;
        exact (uint16_succ_ne _ E).
Qed.

(** After a collision on its first probe, [next] returns an id that this
    call has not bound: the binding of the returned id is what it was
    before the call (another entry's, or none). *)
Lemma next_after_collision_returns_unbound {Extra} (extra : Extra)
  (g : idGenerator Extra) :
  let v := uint16 (uint32 (nextID g + 1)) in
  let id := if decide (v = 0) then 1 else v in
  is_Some (usedIDs g !! id) ->
  usedIDs (snd (next extra g)) !! fst (next extra g)
  = usedIDs g !! fst (next extra g).
Proof.
  cbn zeta. intros [x Hlive]. unfold next, AddUint32, StoreUint32, LoadOrStore.
  cbn [nextID usedIDs].
  destruct (decide (uint16 (uint32 (nextID g + 1)) = 0)) as [E|E];
    cbn [nextID usedIDs]; rewrite Hlive.
  - rewrite next_loop_returns_unbound; [reflexivity|]. reflexivity.
  - rewrite next_loop_returns_unbound; [reflexivity|]. cbn [nextID].
    rewrite uint32_idem. reflexivity.
Qed.

(** C1, the code at two inputs on which it departs from the claim. Both
    are states of a long-lived allocator: the counter has gone round the
    16-bit space while some ids stayed live. With ids 1 and 3 live and the
    counter at 65535, [next] wraps to id 1, collides, binds the new entry
    to id 2, and returns 3: an id that is live and belongs to another
    entry. With id 65534 live and the counter at 131069, it collides on
    65534, binds the new entry to 65535, and returns 0, although only two
    ids are live. *)
Theorem next_after_collision_returns_following_id :
  next "c"%string
    {| nextID := 65535; usedIDs := {[1 := "a"%string; 3 := "b"%string]} |}
  = (3, {| nextID := 3;
           usedIDs := {[1 := "a"%string; 2 := "c"%string; 3 := "b"%string]} |})
  /\ next "c"%string
       {| nextID := 131069; usedIDs := {[65534 := "a"%string]} |}
     = (0, {| nextID := 131072;
              usedIDs := {[65534 := "a"%string; 65535 := "c"%string]} |}).
Proof. split; vm_compute; reflexivity. Qed.

(** ** Property lists *)



(** A property block that starts with a key outside the recognized ones
    is refused. *)
Lemma getRawProps_loop_unknown_key (propsLen : Z) (propsBytes : slice)
  (props : gmap byte (list byte)) (key : byte) :
  0 < propsLen -> index propsBytes 0 = Some key -> propCase key propsBytes = None ->
  getRawProps_loop propsLen 0 propsBytes props
  = (props, LoopReturn ErrDecodeBadPacket).
Proof.
  intros Hlen Hkey Hcase. rewrite getRawProps_loop_equation_1.
  destruct (Z_lt_dec 0 propsLen) as [?|]; [|lia]. cbn.
  rewrite Hkey. cbn. rewrite Hcase. reflexivity.
Qed.

(** C10, the code at two malformed inputs that it accepts. A property
    block of length 1 that holds only the subscription-identifier key, with
    no value, is parsed without error; so is a block of length 1 holding
    only the content-type key, whose length 65534 is read from the bytes
    after the block and wraps to nothing in [uint16]. *)
Theorem getRawProps_accepts_truncated_property :
  getRawProps (mkslice [Byte.x01; Byte.x0b] [])
  = RawProps (Some {[ propKeySubID := [] ]}) (Some (Slice [] 0)) None
  /\ getRawProps (mkslice [Byte.x01; Byte.x03; Byte.xff; Byte.xfe] [])
     = RawProps (Some {[ propKeyContentType := [] ]})
         (Some (Slice [Byte.xff; Byte.xfe] 2)) None.
Proof. split; vm_compute; reflexivity. Qed.

(** ** Construction *)



(** ** Reconnect delay *)

(** Whatever [math.Pow] returns, the delay is 0 for a failure count of 0
    and never above [maxDelay] for a positive one. *)
Lemma reconnectDelay_bounds (math_Pow : float -> float -> float)
  (o : clientOptions) (nfail : Z) :
  reconnectDelay math_Pow o 0 = 0
  /\ (if decide (nfail > 0) then reconnectDelay math_Pow o nfail <= maxDelay o
      else reconnectDelay math_Pow o nfail = 0).
Proof.
  split; [reflexivity|]. unfold reconnectDelay.
  destruct (decide (nfail > 0)); [|reflexivity].
  destruct (decide (_ > maxDelay o)); lia.
Qed.

(** ** Waiting for CONNACK *)

(** C2 (as amended). [waitForConnAck] returns the error of the context
    ([ctx.Err()]: deadline exceeded or cancelled) when the context is done
    first, [ErrDecodeBadPacket] when the net-recv channel is closed or its
    first packet is not a CONNACK, the broker's code as a [connAckError]
    when that code is not 0, and nil when it is 0. [connect] counts a
    failure and hands the [ConnHandler] the broker's code for a
    [connAckError], 255 for any other error, and on success the code 0
    with a nil error and a failure count reset to 0. *)
Theorem waitForConnAck_result (why : ctx_err) (pkt : Packet) (code nfail : Z) :
  waitForConnAck (CtxDoneCase why) = Ret (Some (ctxErr why))
  /\ waitForConnAck (NetRecvCase None) = Ret (Some ErrDecodeBadPacket)
  /\ waitForConnAck (NetRecvCase (Some pkt))
     = Ret (match pkt with
            | ConnAckPacket Code =>
                if decide (Code = 0) then None else Some (connAckError Code)
            | _ => Some ErrDecodeBadPacket
            end)
  /\ connect_report (Some (connAckError code)) nfail
     = (nfail + 1, (code, Some (connAckError code)))
  /\ connect_report (Some (ctxErr why)) nfail
     = (nfail + 1, (255, Some (ctxErr why)))
  /\ connect_report (Some ErrDecodeBadPacket) nfail
     = (nfail + 1, (255, Some ErrDecodeBadPacket))
  /\ connect_report None nfail = (0, (0, None)).
Proof.
  repeat split; try reflexivity.
  destruct pkt; try reflexivity.
  unfold waitForConnAck, CodeSuccess. cbn [Type_].
  destruct (decide (CtrlConnAck <> CtrlConnAck)) as [|_]; [congruence|].
  destruct (decide (Code <> 0)), (decide (Code = 0));
    first [reflexivity | exfalso; lia].
Qed.

(** C2, the claim as stated fails: when the dial-timeout context expires
    first, [waitForConnAck] returns the context's deadline error, which is
    not [ErrTimeOut]. *)
Lemma waitForConnAck_timeout_is_context_error :
  waitForConnAck (CtxDoneCase DeadlineExceeded)
  = Ret (Some (ctxErr DeadlineExceeded))
  /\ ctxErr DeadlineExceeded <> ErrTimeOut.
Proof. split; [reflexivity|discriminate]. Qed.

(** ** Publish *)

(** C3 (as amended). On a client that is not closing, for a non-nil
    packet passed to [Publish]: its qos is clamped to 2; if the clamped qos
    is greater than 0 and the packet's id is 0, an id is taken from the
    allocator, written to the packet, and the packet is stored under
    [S<id>] (a store error going to the event channel) before it is put on
    the outbound channel; otherwise it is only put on the outbound channel.
    Nothing else happens. *)
Theorem Publish_clamps_persists_enqueues {PS} `{!PersistMethod PS}
  (w : world PS) (l : loc) (p : PublishPacket.t)
  (sch : chan Packet) (mch : chan message) :
  isClosing w = false ->
  heap w !! l = Some (OPublish p) ->
  0 <= PublishPacket.Qos p ->
  sendCh (cli w) = Some sch ->
  msgCh (cli w) = Some mch ->
  let qos := Z.min (PublishPacket.Qos p) 2 in
  exists w',
    Publish [Some l] w = Ret w'
    /\ sendCh (cli w') = Some (Chan (chan_cap sch) (chan_buf sch ++ [PublishRef l]))
    /\ if decide (qos > 0 /\ PublishPacket.PacketID p = 0) then
         let id := fst (next (PublishRef l) (idGen (cli w))) in
         let e := fst (pStore (sendKey id) (PublishRef l) (persist (cli w))) in
         heap w' = <[l := OPublish (PublishPacket.mk (PublishPacket.TopicName p)
                                      (PublishPacket.Payload p) qos id)]> (heap w)
         /\ idGen (cli w') = snd (next (PublishRef l) (idGen (cli w)))
         /\ persist (cli w')
            = snd (pStore (sendKey id) (PublishRef l) (persist (cli w)))
         /\ trace w' = trace w
              ++ [ENext (PublishRef l) id; EStore (sendKey id) (PublishRef l)]
              ++ persist_events e ++ [ESendCh (PublishRef l)]
       else
         heap w' = <[l := OPublish (PublishPacket.mk (PublishPacket.TopicName p)
                                      (PublishPacket.Payload p) qos
                                      (PublishPacket.PacketID p))]> (heap w)
         /\ idGen (cli w') = idGen (cli w)
         /\ persist (cli w') = persist (cli w)
         /\ trace w' = trace w ++ [ESendCh (PublishRef l)].
Proof.
  intros Hopen Hl Hq Hs Hm qos. subst qos.
  destruct w as [h c tr]. destruct c as [o mc sc rc g ps cd].
  cbn in Hopen, Hl, Hs, Hm. subst.
  destruct p as [tn pl q pid].
  cbn [PublishPacket.Qos PublishPacket.PacketID PublishPacket.TopicName PublishPacket.Payload] in *.
  unfold Publish, isClosing. cbn [cli ctxDone Publish_range Publish_body].
  unfold load_publish. cbn [heap]. rewrite Hl.
  cbn [mbind outcome_bind PublishPacket.Qos PublishPacket.PacketID
       PublishPacket.TopicName PublishPacket.Payload].
  unfold Qos2, Qos0.
  destruct (decide (q > 2)) as [Hbig|Hsmall].
  - replace (Z.min q 2) with 2 by lia.
    unfold store_obj, set_heap. cbn [heap cli trace].
    rewrite lookup_insert_eq. cbn [mbind outcome_bind PublishPacket.Qos PublishPacket.PacketID].
    destruct (decide (2 <> 0)) as [_|]; [|lia].
    destruct (decide (pid = 0)) as [->|Hpid].
    + destruct (decide (2 > 0 /\ 0 = 0)) as [_|]; [|lia].
      unfold idGen_next. cbn [cli idGen].
      destruct (next (PublishRef l) g) as [id g'] eqn:Hnext.
      cbn [fst snd].
      unfold persist_Store, emit, set_cli, with_idGen, with_persist.
      cbn [cli persist heap trace options msgCh sendCh recvCh idGen ctxDone].
      destruct (pStore (sendKey id) (PublishRef l) ps) as [e ps'] eqn:Hst.
      cbn [fst snd].
      destruct e as [e|]; cbn [notifyPersistMsg persist_events].
      * unfold send_msg, send_sendCh, chan_send, emit, set_cli, with_msgCh, with_sendCh.
        cbn. eexists. split; [reflexivity|]. cbn.
        rewrite insert_insert_eq, <- !app_assoc. auto.
      * unfold send_sendCh, chan_send, emit, set_cli, with_sendCh.
        cbn. eexists. split; [reflexivity|]. cbn.
        rewrite insert_insert_eq, <- !app_assoc. auto.
    + destruct (decide (2 > 0 /\ pid = 0)) as [|_]; [lia|].
      unfold send_sendCh, chan_send, emit, set_cli, with_sendCh.
      cbn. eexists. split; [reflexivity|]. cbn. auto.
  - replace (Z.min q 2) with q by lia.
    cbn [heap]. rewrite Hl.
    cbn [mbind outcome_bind PublishPacket.Qos PublishPacket.PacketID].
    destruct (decide (q <> 0)) as [Hnz|Hz].
    + destruct (decide (pid = 0)) as [->|Hpid].
      * destruct (decide (q > 0 /\ 0 = 0)) as [_|]; [|lia].
        unfold idGen_next. cbn [cli idGen].
        destruct (next (PublishRef l) g) as [id g'] eqn:Hnext.
        cbn [fst snd].
        unfold persist_Store, store_obj, set_heap, emit, set_cli, with_idGen, with_persist.
        cbn [cli persist heap trace options msgCh sendCh recvCh idGen ctxDone].
        destruct (pStore (sendKey id) (PublishRef l) ps) as [e ps'] eqn:Hst.
        cbn [fst snd].
        destruct e as [e|]; cbn [notifyPersistMsg persist_events].
        -- unfold send_msg, send_sendCh, chan_send, emit, set_cli, with_msgCh, with_sendCh.
           cbn. eexists. split; [reflexivity|]. cbn.
           rewrite <- !app_assoc. auto.
        -- unfold send_sendCh, chan_send, emit, set_cli, with_sendCh.
           cbn. eexists. split; [reflexivity|]. cbn.
           rewrite <- !app_assoc. auto.
      * destruct (decide (q > 0 /\ pid = 0)) as [|_]; [lia|].
        unfold send_sendCh, chan_send, emit, set_cli, with_sendCh.
        cbn. eexists. split; [reflexivity|]. cbn.
        rewrite insert_id by assumption. auto.
    + destruct (decide (q > 0 /\ pid = 0)) as [|_]; [lia|].
      unfold send_sendCh, chan_send, emit, set_cli, with_sendCh.
      cbn. eexists. split; [reflexivity|]. cbn.
      rewrite insert_id by assumption. auto.
Qed.

(** The packet of [sample_world] (qos 3, no id) is clamped to qos 2, gets
    id 1, is stored under [S1] and then enqueued. *)
Lemma Publish_clamps_persists_enqueues_witness :
  exists w',
    Publish [Some 1%positive] sample_world = Ret w'
    /\ sendCh (cli w') = Some (Chan 1 [PublishRef 1%positive])
    /\ heap w' !! 1%positive = Some (OPublish (PublishPacket.mk "t" [] 2 1))
    /\ trace w' = [ENext (PublishRef 1%positive) 1;
                   EStore "S1" (PublishRef 1%positive);
                   ESendCh (PublishRef 1%positive)].
Proof.
  destruct (Publish_clamps_persists_enqueues sample_world 1%positive
              (PublishPacket.mk "t" [] 3 0) (Chan 1 []) (Chan 10 []))
    as (w' & Hrun & Hsend & Hrest).
  - reflexivity.
  - reflexivity.
  - cbn. lia.
  - reflexivity.
  - reflexivity.
  - exists w'. split; [exact Hrun|]. split; [exact Hsend|].
    destruct Hrest as (Hheap & _ & _ & Htrace).
    split; [rewrite Hheap; reflexivity|exact Htrace].
Defined.

(** C3, the claim as stated fails: [Publish] on a client whose context is
    cancelled returns at once; the packet keeps its qos 3 and nothing is
    put on the outbound channel. *)
Lemma Publish_on_closing_client_does_nothing :
  Publish [Some 1%positive] sample_closing_world = Ret sample_closing_world
  /\ heap sample_closing_world !! 1%positive
     = Some (OPublish (PublishPacket.mk "t" [] 3 0))
  /\ sendCh (cli sample_closing_world) = Some (Chan 1 []).
Proof. repeat split. Qed.

(** On a client that is not closing, [Publish] of several packets handles
    the first as [Publish] of it alone does and goes on with the others,
    without looking at the context again; a nil packet is skipped. *)
Lemma Publish_each {PS} `{!PersistMethod PS} (m : option loc)
  (msg : list (option loc)) (w : world PS) :
  isClosing w = false ->
  Publish (m :: msg) w = (w1 ← Publish [m] w; Publish_range msg w1)
  /\ Publish (None :: msg) w = Publish msg w.
Proof.
  intros Hopen. unfold Publish. rewrite Hopen. cbn [Publish_range]. split.
  - destruct (Publish_body m w); reflexivity.
  - reflexivity.
Qed.

(** ** SubAck *)






(** ** Which packets travel on which channel *)

Section Only.
Context {PS : Type} `{!PersistMethod PS} (P : effect -> Prop).
Implicit Types w : world PS.

Lemma only_refl w : only P w w.
Proof. exists []. split; [symmetry; apply app_nil_r|constructor]. Qed.

Lemma only_emit e w0 w : P e -> only P w0 w -> only P w0 (emit e w).
Proof.
  intros He (tr & E & F). exists (tr ++ [e]). split.
  - cbn. rewrite E, app_assoc. reflexivity.
  - apply Forall_app. split; [exact F|repeat constructor; exact He].
Qed.

Lemma only_same_trace w0 w w' : trace w' = trace w -> only P w0 w -> only P w0 w'.
Proof. intros E' (tr & E & F). exists tr. split; [congruence|exact F]. Qed.

Lemma only_send_msg m w0 w w' :
  send_msg m w = Ret w' -> P (EMsg m) -> only P w0 w -> only P w0 w'.
Proof.
  unfold send_msg. destruct (chan_send _ _); cbn; try discriminate.
  intros [= <-] He Hw. apply only_emit; [exact He|].
  eapply only_same_trace; [|exact Hw]. reflexivity.
Qed.

Lemma only_notifyPersistMsg e w0 w w' :
  notifyPersistMsg e w = Ret w' -> (forall m, P (EMsg m)) ->
  only P w0 w -> only P w0 w'.
Proof.
  destruct e; cbn.
  - intros H He. eapply only_send_msg; [exact H|apply He].
  - intros [= <-] _ Hw. exact Hw.
Qed.

Lemma only_persist_Store key p e w0 w w' :
  persist_Store key p w = (e, w') -> P (EStore key p) ->
  only P w0 w -> only P w0 w'.
Proof.
  unfold persist_Store. destruct (pStore _ _ _). intros [= _ <-] He Hw.
  apply only_emit; [exact He|]. eapply only_same_trace; [|exact Hw]. reflexivity.
Qed.

Lemma only_persist_Delete key e w0 w w' :
  persist_Delete key w = (e, w') -> P (EDelete key) ->
  only P w0 w -> only P w0 w'.
Proof.
  unfold persist_Delete. destruct (pDelete _ _). intros [= _ <-] He Hw.
  apply only_emit; [exact He|]. eapply only_same_trace; [|exact Hw]. reflexivity.
Qed.

Lemma only_idGen_next extra id w0 w w' :
  idGen_next extra w = (id, w') -> P (ENext extra id) ->
  only P w0 w -> only P w0 w'.
Proof.
  unfold idGen_next. destruct (next _ _). intros [= -> <-] He Hw.
  apply only_emit; [exact He|]. eapply only_same_trace; [|exact Hw]. reflexivity.
Qed.

Lemma only_idGen_free id w0 w :
  P (EFree id) -> only P w0 w -> only P w0 (idGen_free id w).
Proof.
  intros He Hw. apply only_emit; [exact He|].
  eapply only_same_trace; [|exact Hw]. reflexivity.
Qed.

Lemma only_store_obj l o w0 w : only P w0 w -> only P w0 (store_obj l o w).
Proof. apply only_same_trace. reflexivity. Qed.

Lemma only_set_cli c w0 w : only P w0 w -> only P w0 (set_cli c w).
Proof. apply only_same_trace. reflexivity. Qed.

Lemma only_send_sendCh p w0 w w' :
  send_sendCh p w = Ret w' -> P (ESendCh p) -> only P w0 w -> only P w0 w'.
Proof.
  unfold send_sendCh. destruct (chan_send _ _); cbn; try discriminate.
  intros [= <-] He Hw. apply only_emit; [exact He|].
  eapply only_same_trace; [|exact Hw]. reflexivity.
Qed.

Lemma only_send_recvCh p w0 w w' :
  send_recvCh p w = Ret w' -> P (ERecvCh p) -> only P w0 w -> only P w0 w'.
Proof.
  unfold send_recvCh. destruct (chan_send _ _); cbn; try discriminate.
  intros [= <-] He Hw. apply only_emit; [exact He|].
  eapply only_same_trace; [|exact Hw]. reflexivity.
Qed.

Lemma overlayCodes_trace Codes topics : forall i w w',
  overlayCodes i topics Codes w = Ret w' -> trace w' = trace w.
Proof.
  induction topics as [|v topics IH]; intros i w w'; cbn [overlayCodes].
  - intros [= <-]. reflexivity.
  - destruct (Codes !! i) as [code|]; cbn [mbind outcome_bind].
    + destruct v as [l|]; [|discriminate].
      destruct (load_topic l w); cbn [mbind outcome_bind]; try discriminate.
      intros H. apply IH in H. exact H.
    + apply IH.
Qed.
End Only.

(** Splits an equation [m = Ret w'] along the binds and matches of [m]. *)
Ltac outcome_cases H :=
  repeat match type of H with
    | Ret _ = Ret _ => injection H as <-
    | Panics = Ret _ => discriminate H
    | Blocks = Ret _ => discriminate H
    | mbind _ ?m = Ret _ =>
        let E := fresh "E" in
        destruct m eqn:E; cbn [mbind outcome_bind] in H;
        [try outcome_cases E | discriminate H | discriminate H]
    | (let _ := _ in _) = Ret _ => cbv zeta in H
    | (let '(_, _) := ?x in _) = Ret _ => let E := fresh "E" in destruct x eqn:E
    | (match ?x with _ => _ end) = Ret _ => destruct x eqn:?
    | (if ?x then _ else _) = Ret _ => destruct x
    end.

(** Walks back from the final state along the calls that produced it. *)
Ltac only_back :=
  unfold notifyPubMsg, notifySubMsg, notifyUnSubMsg, conn_send, client_exit in *;
  repeat first
    [ apply only_refl
    | apply only_store_obj
    | apply only_set_cli
    | apply only_idGen_free; [exact I|]
    | apply only_emit; [first [exact I | reflexivity]|]
    | match goal with
      | |- only _ _ (if ?d then _ else _) => destruct d
      | H : send_msg _ _ = Ret ?w' |- only _ _ ?w' =>
          apply (only_send_msg _ _ _ _ _ H); [exact I|]; clear H
      | H : notifyPersistMsg _ _ = Ret ?w' |- only _ _ ?w' =>
          apply (only_notifyPersistMsg _ _ _ _ _ H); [intros; exact I|]; clear H
      | H : persist_Store _ _ _ = (_, ?w') |- only _ _ ?w' =>
          apply (only_persist_Store _ _ _ _ _ _ _ H); [exact I|]; clear H
      | H : persist_Delete _ _ = (_, ?w') |- only _ _ ?w' =>
          apply (only_persist_Delete _ _ _ _ _ _ H); [exact I|]; clear H
      | H : idGen_next _ _ = (_, ?w') |- only _ _ ?w' =>
          apply (only_idGen_next _ _ _ _ _ _ H); [exact I|]; clear H
      | H : send_sendCh _ _ = Ret ?w' |- only _ _ ?w' =>
          apply (only_send_sendCh _ _ _ _ _ H); [first [exact I | reflexivity]|]; clear H
      | H : send_recvCh _ _ = Ret ?w' |- only _ _ ?w' =>
          apply (only_send_recvCh _ _ _ _ _ H); [exact I|]; clear H
      | H : overlayCodes _ _ _ _ = Ret ?w' |- only _ _ ?w' =>
          apply (only_same_trace _ _ _ _ (overlayCodes_trace _ _ _ _ _ H)); clear H
      end ].

(** Every packet that [logic] hands to [c.send] is one of those listed in
    [on_logicSendC]. *)
Lemma logic_recv_sends {PS} `{!PersistMethod PS} (pkt : Packet) (w w' : world PS) :
  logic_recv pkt w = Ret w' -> only logicSend_ok w w'.
Proof.
  unfold logic_recv. intros H.
  destruct pkt; outcome_cases H; only_back.
Qed.

(** So is the ping request of [keepalive]. *)
Lemma keepalive_step_sends {PS} st ev (w w' : world PS) st' :
  keepalive_step st ev w = Some (st', w') -> only logicSend_ok w w'.
Proof.
  destruct st, ev as [| |[]|]; cbn; intros [= <- <-];
    unfold keepalive_defer; only_back.
Qed.

(** Every packet that the public calls put on the outbound channel is one
    of those listed in [on_sendCh]. *)
Lemma Publish_range_sends {PS} `{!PersistMethod PS} (msg : list (option loc)) :
  forall (w w' : world PS), Publish_range msg w = Ret w' -> only sendCh_ok w w'.
Proof.
  induction msg as [|m msg IH]; intros w w' H; cbn [Publish_range] in H.
  - injection H as <-. apply only_refl.
  - destruct (Publish_body m w) as [w1| |] eqn:E1; cbn [mbind outcome_bind] in H;
      try discriminate.
    apply IH in H. destruct H as (t2 & E2 & F2).
    assert (H1 : only sendCh_ok w w1).
    { clear E2 F2 t2 IH. unfold Publish_body in E1.
      destruct m as [l|]; outcome_cases E1; only_back. }
    destruct H1 as (t1 & Et1 & F1). exists (t1 ++ t2).
    split; [rewrite E2, Et1, app_assoc; reflexivity|apply Forall_app; auto].
Qed.

Lemma public_calls_send {PS} `{!PersistMethod PS} (w w' : world PS) :
  (forall msg, Publish msg w = Ret w' -> only sendCh_ok w w')
  /\ (forall topics, Subscribe topics w = Ret w' -> only sendCh_ok w w')
  /\ (forall topics, UnSubscribe topics w = Ret w' -> only sendCh_ok w w')
  /\ (forall force, Destroy force w = Ret w' -> only sendCh_ok w w').
Proof.
  repeat apply conj.
  - intros msg. unfold Publish. destruct (isClosing w).
    + intros [= <-]. apply only_refl.
    + apply Publish_range_sends.
  - intros topics H. unfold Subscribe in H. outcome_cases H; only_back.
  - intros topics H. unfold UnSubscribe in H. outcome_cases H; only_back.
  - intros force H. unfold Destroy in H. outcome_cases H; only_back.
Qed.

(** ** The send pump *)



(** ** The keepalive watchdog *)

(** A check that holds below [n] holds at every index below [n]. *)
Lemma all_below_spec (P : Z -> bool) (n : N) :
  all_below P n = true -> forall i, 0 <= i < Z.of_N n -> P i = true.
Proof.
  unfold all_below.
  assert (H : snd (N.iter n (fun '(b, i) => (b && P i, i + 1)) (true, 0)) = Z.of_N n
              /\ (fst (N.iter n (fun '(b, i) => (b && P i, i + 1)) (true, 0)) = true ->
                  forall i, 0 <= i < Z.of_N n -> P i = true)).
  { induction n as [|n [IHs IHp]] using N.peano_ind.
    - split; [reflexivity|]. intros _ i Hi. lia.
    - rewrite N.iter_succ.
      destruct (N.iter n _ (true, 0)) as [b j]. cbn [fst snd] in *. subst j.
      split; [lia|]. intros Hb i Hi.
      apply andb_true_iff in Hb as [Hb HP].
      destruct (Z.eq_dec i (Z.of_N n)) as [->|Hne]; [exact HP|].
      apply IHp; [exact Hb|lia]. }
  apply H.
Qed.

(** For each interval of 0 to 65535 seconds, the range of the keepalive
    field of a CONNECT packet, the float product with the factors 1, 1.5
    and 2 is exact: all 65536 intervals are evaluated. *)
Lemma timeout_exact_factor_1 : all_below (timeout_exact 1 2) 65536 = true.
Proof. vm_compute. reflexivity. Qed.

Lemma timeout_exact_factor_1_5 : all_below (timeout_exact 1.5 3) 65536 = true.
Proof. vm_compute. reflexivity. Qed.

Lemma timeout_exact_factor_2 : all_below (timeout_exact 2 4) 65536 = true.
Proof. vm_compute. reflexivity. Qed.

Lemma timeout_whole_seconds (factor : float) (num s : Z) :
  all_below (timeout_exact factor num) 65536 = true ->
  0 <= s <= 65535 ->
  2 * duration_of_float (PrimFloat.mul (float64_of_int (s * Second)) factor)
  = num * (s * Second).
Proof.
  intros Hall Hs.
  assert (Hr : 0 <= s < Z.of_N 65536) by (change (Z.of_N 65536) with 65536; lia).
  exact (proj1 (Z.eqb_eq _ _)
           (all_below_spec (timeout_exact factor num) 65536 Hall s Hr)).
Qed.

(** C6. [logic] starts the watchdog exactly when the configured keepalive
    is greater than 0. The watchdog creates a ticker of period keepalive
    * 3 / 4 and a timer of keepalive * keepaliveFactor. At its outer wait
    a tick makes it send a ping request through [c.send] and move to the
    inner wait; there the session's cancellation makes it return, a pulse
    from the receive pump resets the timer to keepalive * keepaliveFactor
    and takes it back to the outer wait, and the timer's expiry cancels
    the session and makes it return. Neither a pulse nor the timer is
    waited for at the outer wait.

    The timeout is [time.Duration(float64(keepalive) * keepaliveFactor)],
    the product taken in [float64] and truncated towards zero. For a
    keepalive of a whole number of seconds from 0 to 65535, which is what
    the CONNECT packet can carry, and a factor of 1, 1.5 (the default) or
    2, that is exactly the keepalive times the factor. *)
Theorem keepalive_watchdog {PS} (w : world PS) :
  let o := options (cli w) in
  trace (logic_start w)
  = trace w ++ (if decide (keepalive o > 0) then [EGoKeepalive] else [])
  /\ match keepalive_start w with
     | Ret w' =>
         trace w' = trace w ++ [ENewTicker (keepalive_pulse o);
                                ENewTimer (keepalive_timeout o)]
     | Panics => keepalive_pulse o <= 0
     | Blocks => False
     end
  /\ (if decide (0 <= keepalive o <= 3074457345618258602)
      then keepalive_pulse o = keepalive o * 3 / 4
      else True)
  /\ keepalive_timeout o
     = duration_of_float
         (PrimFloat.mul (float64_of_int (keepalive o)) (keepaliveFactor o))
  /\ (forall s num,
        0 <= s <= 65535 ->
        keepalive o = s * Second ->
        num = 2 /\ keepaliveFactor o = 1%float
        \/ num = 3 /\ keepaliveFactor o = 1.5%float
        \/ num = 4 /\ keepaliveFactor o = 2%float ->
        2 * keepalive_timeout o = num * keepalive o)
  /\ keepalive_step KaSelect KaTick w
     = Some (KaAwait, emit (ELogicSend PingReqPacket) w)
  /\ keepalive_step KaSelect KaCtxDone w = Some (KaReturned, emit ETimersStop w)
  /\ keepalive_step KaAwait KaCtxDone w = Some (KaReturned, emit ETimersStop w)
  /\ keepalive_step KaAwait (KaPulse true) w
     = Some (KaSelect, emit (ETimerReset (keepalive_timeout o)) w)
  /\ keepalive_step KaAwait KaTimeout w
     = Some (KaReturned, emit ETimersStop (emit EExitConn w))
  /\ keepalive_step KaSelect KaTimeout w = None
  /\ keepalive_step KaSelect (KaPulse true) w = None
  /\ (forall ev, keepalive_step KaReturned ev w = None).
Proof.
  cbn zeta. repeat apply conj; try reflexivity.
  - unfold logic_start. destruct (decide (keepalive (options (cli w)) > 0)).
    + reflexivity.
    + cbn. rewrite app_nil_r. reflexivity.
  - unfold keepalive_start.
    destruct (decide (keepalive_pulse (options (cli w)) <= 0)); [assumption|].
    cbn. rewrite <- app_assoc. reflexivity.
  - destruct (decide (0 <= keepalive (options (cli w)) <= 3074457345618258602))
      as [Hk|]; [|exact I].
    unfold keepalive_pulse, int64.
    change (2 ^ 63) with 9223372036854775808.
    change (2 ^ 64) with 18446744073709551616.
    rewrite Z.mod_small by lia.
    rewrite Z.quot_div_nonneg by lia. f_equal. lia.
  - intros s num Hs Hk Hf. unfold keepalive_timeout. rewrite Hk.
    destruct Hf as [[-> Hf]|[[-> Hf]|[-> Hf]]]; rewrite Hf.
    + exact (timeout_whole_seconds 1 2 s timeout_exact_factor_1 Hs).
    + exact (timeout_whole_seconds 1.5 3 s timeout_exact_factor_1_5 Hs).
    + exact (timeout_whole_seconds 2 4 s timeout_exact_factor_2 Hs).
Qed.

(** With the defaults (two minutes, factor 1.5) the ticker period is 90
    seconds and the timeout 180 seconds. *)
Example keepalive_default_timeout :
  keepalive_timeout (options (defaultClient tt)) = 180 * Second
  /\ keepalive_pulse (options (defaultClient tt)) = 90 * Second.
Proof. split; vm_compute; reflexivity. Qed.

(** Over any run of the watchdog, one ping request is sent for each tick
    taken, and the session is cancelled once for each timeout taken (at
    most one, since the watchdog returns then). *)
Lemma keepalive_run_pings {PS} (evs : list keepalive_event) :
  forall st (w w' : world PS) st',
  keepalive_run st evs w = Some (st', w') ->
  exists tr,
    trace w' = trace w ++ tr
    /\ length (List.filter is_ping tr) = length (List.filter is_tick evs)
    /\ length (List.filter is_exit tr) = length (List.filter is_timeout evs)
    /\ (length (List.filter is_timeout evs) <= 1)%nat
    /\ (st = KaReturned -> evs = []).
Proof.
  induction evs as [|ev evs IH]; intros st w w' st' H; cbn [keepalive_run] in H.
  - injection H as <- <-. exists []. rewrite app_nil_r. cbn. repeat split; lia.
  - destruct (keepalive_step st ev w) as [[st1 w1]|] eqn:E; [|discriminate].
    destruct (IH _ _ _ _ H) as (tr & Etr & Hp & Hx & Hle & Hret).
    destruct st, ev as [| |[]|]; cbn in E; try discriminate;
      injection E as <- <-; cbn in Etr;
      try (specialize (Hret eq_refl); subst evs; cbn in *);
      (eexists; split; [rewrite Etr, <- ?app_assoc; reflexivity|]);
      cbn; repeat split; try lia; try discriminate.
Qed.

(** ** Scenarios *)

(** An outbound publish clamped to qos 2: id 1 is allocated and [S1]
    stored before the packet is enqueued; PubRec makes the logic loop
    send PubRel; PubComp makes it send PubRel again, emit the completion
    event, free the id and delete [S1]. In the end no id is live and the
    store is empty. *)
Example qos2_publish_flow :
  (w ← Publish [Some 1%positive] sample_world;
   w ← logic_recv (PubRecvPacket 1) w;
   w ← logic_recv (PubCompPacket 1) w;
   Ret (trace w, usedIDs (idGen (cli w)), persist (cli w)))
  = Ret ([ENext (PublishRef 1%positive) 1;
          EStore "S1" (PublishRef 1%positive);
          ESendCh (PublishRef 1%positive);
          ELogicSend (PubRelPacket 1);
          ELogicSend (PubRelPacket 1);
          EMsg (pubMsg "t" None);
          EFree 1;
          EDelete "S1"], ∅, ∅).
Proof. vm_compute. reflexivity. Qed.

(** An error of the store goes to the event channel and does not stop
    the publish. *)
Example publish_with_failing_store :
  (w ← Publish [Some 1%positive] sample_failing_store_world; Ret (trace w))
  = Ret [ENext (PublishRef 1%positive) 1;
         EStore "S1" (PublishRef 1%positive);
         EMsg (persistMsg (ErrOther "store"));
         ESendCh (PublishRef 1%positive)].
Proof. vm_compute. reflexivity. Qed.

(** * Further properties *)

(** ** Persistence keys *)

(** X1. The persistence keys identify the direction and the packet id:
    two send keys, or two receive keys, are equal only for equal ids, and
    a send key is never a receive key. *)
Theorem persistence_keys_distinct (a b : Z) :
  (sendKey a = sendKey b <-> a = b)
  /\ (recvKey a = recvKey b <-> a = b)
  /\ sendKey a <> recvKey b.
Proof.
  unfold sendKey, recvKey. cbn. repeat split.
  - intros [= H]. exact (pretty_Z_inj _ _ H).
  - intros ->. reflexivity.
  - intros [= H]. exact (pretty_Z_inj _ _ H).
  - intros ->. reflexivity.
  - discriminate.
Qed.

(** ** Slices made from lists *)

Lemma u8_to_byte_mod (x : Z) : u8 (to_byte x) = x mod 256.
Proof.
  rewrite <- (u8_to_byte (x mod 256)) by (apply Z.mod_pos_bound; lia).
  unfold to_byte. rewrite Z.mod_mod by lia. reflexivity.
Qed.

Lemma lor_shiftl_add (a b n : Z) :
  0 <= n -> 0 <= a < 2 ^ n -> 0 <= b -> Z.lor a (Z.shiftl b n) = a + b * 2 ^ n.
Proof.
  intros Hn Ha Hb.
  pose proof (Z.add_lor_land a (Z.shiftl b n)) as E.
  assert (Z.land a (Z.shiftl b n) = 0) as E0.
  { apply Z.bits_inj'. intros i Hi. rewrite Z.land_spec, Z.bits_0.
    destruct (Z.lt_ge_cases i n).
    - rewrite Z.shiftl_spec_low by lia. apply andb_false_r.
    - replace (Z.testbit a i) with false; [reflexivity|].
      symmetry. destruct (Z.eq_dec a 0) as [->|]; [apply Z.bits_0|].
      apply Z.bits_above_log2; [lia|].
      assert (Z.log2 a < n) by (apply Z.log2_lt_pow2; lia). lia. }
  rewrite E0, Z.add_0_r in E. rewrite E, Z.shiftl_mul_pow2 by lia. reflexivity.
Qed.

Lemma bytes_mkslice (data beyond : list byte) : bytes (mkslice data beyond) = data.
Proof. unfold bytes, mkslice. cbn. apply take_app_length. Qed.

Lemma index_mkslice (data beyond : list byte) (i : nat) :
  index (mkslice data beyond) (Z.of_nat i) = data !! i.
Proof.
  unfold index, mkslice. cbn [len backing].
  destruct (decide (0 <= Z.of_nat i < Z.of_nat (length data))) as [H|H].
  - rewrite Nat2Z.id. apply lookup_app_l. lia.
  - symmetry. apply lookup_ge_None. lia.
Qed.

Lemma reslice_mkslice (data beyond : list byte) (lo hi : nat) :
  (lo <= hi <= length data)%nat ->
  reslice (mkslice data beyond) (Z.of_nat lo) (Z.of_nat hi)
  = Some (mkslice (take (hi - lo) (drop lo data)) (drop hi data ++ beyond)).
Proof.
  intros H. unfold reslice, mkslice, cap. cbn [len backing].
  rewrite length_app.
  destruct (decide _) as [_|Hn]; [|lia].
  rewrite Nat2Z.id. f_equal. f_equal.
  - rewrite drop_app_le by lia. rewrite app_assoc. f_equal.
    rewrite <- (take_drop (hi - lo) (drop lo data)) at 1. f_equal.
    rewrite drop_drop. f_equal. lia.
  - rewrite length_take, length_drop. lia.
Qed.

Lemma reslice_from_mkslice (data beyond : list byte) (lo : nat) :
  (lo <= length data)%nat ->
  reslice_from (mkslice data beyond) (Z.of_nat lo)
  = Some (mkslice (drop lo data) beyond).
Proof.
  intros H. unfold reslice_from. cbn [mkslice len].
  destruct (decide _) as [_|]; [|lia].
  rewrite (reslice_mkslice data beyond lo (length data)) by lia.
  f_equal. rewrite drop_all, app_nil_l. f_equal.
  apply take_ge. rewrite length_drop. lia.
Qed.

Lemma getUint16_mkslice (b0 b1 : byte) (data beyond : list byte) :
  getUint16 (mkslice (b0 :: b1 :: data) beyond) = Some (u8 b0 * 256 + u8 b1).
Proof.
  unfold getUint16.
  rewrite (index_mkslice _ _ 1), (index_mkslice _ _ 0). cbn.
  f_equal. pose proof (u8_range b0). pose proof (u8_range b1).
  rewrite (lor_shiftl_add _ _ 8) by lia. change (2 ^ 8) with 256. lia.
Qed.

Lemma length_prefix_value (l : Z) :
  u8 (to_byte (Z.shiftr l 8)) * 256 + u8 (to_byte l) = l mod 65536.
Proof.
  rewrite !u8_to_byte_mod, Z.shiftr_div_pow2 by lia.
  change (2 ^ 8) with 256. change 65536 with (256 * 256).
  rewrite Z.rem_mul_r by lia. lia.
Qed.

Lemma getBinaryData_encoded (data rest beyond : list byte) :
  let n := Z.to_nat (Z.of_nat (length data) mod 65536) in
  getBinaryData (Some (mkslice (encodeBytesWithLen data ++ rest) beyond))
  = Some (Some (mkslice (take n data) (drop n data ++ rest ++ beyond)),
          Some (mkslice (drop n data ++ rest) beyond), None).
Proof.
  cbn zeta. set (l := Z.of_nat (length data)).
  assert (Hl : 0 <= l mod 65536 <= l).
  { split; [apply Z.mod_pos_bound; lia|apply Z.mod_le; lia]. }
  unfold getBinaryData, encodeBytesWithLen. fold l. cbn [app slice_len mkslice len].
  cbn [length]. rewrite length_app.
  destruct (decide _) as [|_]; [lia|]. cbn [mbind option_bind].
  change ({| backing := (to_byte (Z.shiftr l 8) :: to_byte l :: data ++ rest) ++ beyond;
             len := S (S (length data + length rest)) |})
    with (mkslice (to_byte (Z.shiftr l 8) :: to_byte l :: data ++ rest) beyond).
  rewrite getUint16_mkslice, length_prefix_value. cbn [mbind option_bind].
  destruct (decide _) as [|_]; [lia|].
  set (n := Z.to_nat (l mod 65536)).
  replace (l mod 65536 + 2) with (Z.of_nat (2 + n)) by lia.
  rewrite (reslice_mkslice _ _ 2 (2 + n)) by (cbn [length]; rewrite length_app; lia).
  rewrite reslice_from_mkslice by (cbn [length]; rewrite length_app; lia).
  cbn [mbind option_bind skipn].
  replace (2 + n - 2)%nat with n by lia.
  cbn [skipn Nat.add]. rewrite drop_0.
  rewrite take_app_le, drop_app_le by lia.
  rewrite <- app_assoc. reflexivity.
Qed.

(** X2. Decoding what [encodeBytesWithLen] wrote, with anything behind
    it: [getBinaryData] returns no error, the first [length mod 65536]
    bytes of the data, and as the rest what follows them; [getStringData]
    does the same on [encodeStringWithLen]. For data shorter than 65536
    bytes this is the data itself and exactly the bytes that were behind
    it; for longer data the two-byte prefix has lost the high part of the
    length and the decoder returns a proper prefix. *)
Theorem getBinaryData_encodeBytesWithLen (data rest beyond : list byte) :
  let n := Z.to_nat (Z.of_nat (length data) mod 65536) in
  (exists b next,
     getBinaryData (Some (mkslice (encodeBytesWithLen data ++ rest) beyond))
     = Some (Some b, Some next, None)
     /\ bytes b = take n data
     /\ bytes next = drop n data ++ rest)
  /\ (exists next,
        getStringData (Some (mkslice (encodeStringWithLen data ++ rest) beyond))
        = Some (take n data, Some next, None)
        /\ bytes next = drop n data ++ rest)
  /\ (if decide (Z.of_nat (length data) < 65536)
      then take n data = data /\ drop n data ++ rest = rest
      else (n < length data)%nat).
Proof.
  cbn zeta. split; [|split].
  - eexists _, _. split; [apply getBinaryData_encoded|].
    rewrite !bytes_mkslice. auto.
  - unfold getStringData, encodeStringWithLen.
    rewrite getBinaryData_encoded. cbn [mbind option_bind from_option].
    eexists. split; [rewrite bytes_mkslice; reflexivity|apply bytes_mkslice].
  - destruct (decide (Z.of_nat (length data) < 65536)).
    + rewrite Z.mod_small, Nat2Z.id by lia.
      rewrite take_ge, drop_ge by lia. auto.
    + pose proof (Z.mod_pos_bound (Z.of_nat (length data)) 65536 ltac:(lia)). lia.
Qed.

(** X3. [getBinaryData] never panics on a slice of a well-formed
    array. On nil, on fewer than two bytes, and when the announced length
    exceeds what follows the prefix, it returns [ErrDecodeBadPacket] with
    nil slices; otherwise it returns the announced number of bytes and the
    bytes behind them. *)
Theorem getBinaryData_result (data beyond : list byte) :
  getBinaryData None = Some (None, None, Some ErrDecodeBadPacket)
  /\ match data with
     | b0 :: b1 :: body =>
         let n := Z.to_nat (u8 b0 * 256 + u8 b1) in
         if decide (n <= length body)%nat
         then exists b next,
                getBinaryData (Some (mkslice data beyond))
                = Some (Some b, Some next, None)
                /\ bytes b = take n body /\ bytes next = drop n body
         else getBinaryData (Some (mkslice data beyond))
              = Some (None, None, Some ErrDecodeBadPacket)
     | _ => getBinaryData (Some (mkslice data beyond))
            = Some (None, None, Some ErrDecodeBadPacket)
     end.
Proof.
  split; [reflexivity|].
  destruct data as [|b0 [|b1 body]]; try reflexivity.
  cbn zeta. pose proof (u8_range b0). pose proof (u8_range b1).
  unfold getBinaryData. cbn [slice_len mkslice len length].
  destruct (decide (_ < 2)) as [|_]; [lia|]. cbn [mbind option_bind].
  change ({| backing := (b0 :: b1 :: body) ++ beyond; len := S (S (length body)) |})
    with (mkslice (b0 :: b1 :: body) beyond).
  rewrite getUint16_mkslice. cbn [mbind option_bind].
  set (v := u8 b0 * 256 + u8 b1).
  destruct (decide (Z.to_nat v <= length body)%nat) as [Hfit|Hno].
  - destruct (decide (v + 2 > _)) as [|_]; [lia|].
    replace (v + 2) with (Z.of_nat (2 + Z.to_nat v)) by lia.
    rewrite (reslice_mkslice _ _ 2 (2 + Z.to_nat v)) by (cbn [length]; lia).
    rewrite reslice_from_mkslice by (cbn [length]; lia).
    cbn [mbind option_bind skipn].
    eexists _, _. split; [reflexivity|]. rewrite !bytes_mkslice.
    replace (2 + Z.to_nat v - 2)%nat with (Z.to_nat v) by lia. auto.
  - destruct (decide (v + 2 > _)) as [_|]; [reflexivity|lia].
Qed.

(** X4. [putUint16] panics on a slice shorter than two bytes; on a
    longer one it overwrites the first two bytes, leaves the others, and
    [getUint16] then reads the value back, reduced to 16 bits. *)
Theorem putUint16_getUint16 (b0 b1 : byte) (data beyond : list byte) (v : Z) :
  putUint16 (mkslice [] beyond) v = None
  /\ putUint16 (mkslice [b0] beyond) v = None
  /\ exists d',
       putUint16 (mkslice (b0 :: b1 :: data) beyond) v = Some d'
       /\ bytes d' = to_byte (Z.shiftr v 8) :: to_byte v :: data
       /\ getUint16 d' = Some (uint16 v).
Proof.
  split; [reflexivity|]. split; [reflexivity|].
  unfold putUint16. rewrite (index_mkslice _ _ 1). cbn [lookup list_lookup mbind option_bind].
  eexists. split; [reflexivity|].
  change ({| backing := _; len := _ |})
    with (mkslice (to_byte (Z.shiftr v 8) :: to_byte v :: data) beyond).
  rewrite bytes_mkslice, getUint16_mkslice, length_prefix_value. auto.
Qed.

Lemma uint32_bytes_value (v : Z) :
  Z.lor (Z.lor (Z.lor (u8 (to_byte v)) (Z.shiftl (u8 (to_byte (Z.shiftr v 8))) 8))
           (Z.shiftl (u8 (to_byte (Z.shiftr v 16))) 16))
    (Z.shiftl (u8 (to_byte (Z.shiftr v 24))) 24)
  = uint32 v.
Proof.
  rewrite !u8_to_byte_mod, !Z.shiftr_div_pow2 by lia.
  change (2 ^ 8) with 256. change (2 ^ 16) with 65536. change (2 ^ 24) with 16777216.
  pose proof (Z.mod_pos_bound v 256 ltac:(lia)).
  pose proof (Z.mod_pos_bound (v / 256) 256 ltac:(lia)).
  pose proof (Z.mod_pos_bound (v / 65536) 256 ltac:(lia)).
  pose proof (Z.mod_pos_bound (v / 16777216) 256 ltac:(lia)).
  rewrite (lor_shiftl_add _ _ 8) by lia. change (2 ^ 8) with 256.
  rewrite (lor_shiftl_add _ _ 16) by lia. change (2 ^ 16) with 65536.
  rewrite (lor_shiftl_add _ _ 24) by lia. change (2 ^ 24) with 16777216.
  unfold uint32.
  change 4294967296 with (256 * (256 * (256 * 256))).
  rewrite !Z.rem_mul_r by lia.
  rewrite !Z.div_div by lia.
  change (256 * 256) with 65536. change (65536 * 256) with 16777216.
  lia.
Qed.

(** X5. [putUint32] panics on a slice of three bytes; on four or more
    it overwrites the first four bytes, leaves the others, and [getUint32]
    then reads the value back, reduced to 32 bits. *)
Theorem putUint32_getUint32 (b0 b1 b2 b3 : byte) (data beyond : list byte) (v : Z) :
  putUint32 (mkslice [b0; b1; b2] beyond) v = None
  /\ exists d',
       putUint32 (mkslice (b0 :: b1 :: b2 :: b3 :: data) beyond) v = Some d'
       /\ bytes d'
          = to_byte (Z.shiftr v 24) :: to_byte (Z.shiftr v 16)
              :: to_byte (Z.shiftr v 8) :: to_byte v :: data
       /\ getUint32 d' = Some (uint32 v).
Proof.
  split; [reflexivity|].
  unfold putUint32. rewrite (index_mkslice _ _ 3). cbn [lookup list_lookup mbind option_bind].
  eexists. split; [reflexivity|].
  change ({| backing := _; len := _ |})
    with (mkslice (to_byte (Z.shiftr v 24) :: to_byte (Z.shiftr v 16)
                     :: to_byte (Z.shiftr v 8) :: to_byte v :: data) beyond).
  rewrite bytes_mkslice. split; [reflexivity|].
  unfold getUint32.
  rewrite (index_mkslice _ _ 3), (index_mkslice _ _ 2),
          (index_mkslice _ _ 1), (index_mkslice _ _ 0).
  cbn [lookup list_lookup mbind option_bind].
  rewrite uint32_bytes_value. reflexivity.
Qed.

(** X6. A variable-length integer cut off before its last byte: when
    the reader holds fewer than four bytes and each has the continuation
    bit, [getRemainLength] returns length 0 and byte count 0. *)
Theorem getRemainLength_truncated (r : list byte) :
  (length r < 4)%nat ->
  Forall (fun b => Z.land (u8 b) 128 <> 0) r ->
  getRemainLength r = (0, 0).
Proof.
  intros Hlen Hall. unfold getRemainLength, getRemainLength_reader.
  assert (H : forall r acc m, m + 7 * Z.of_nat (length r) < 27 ->
              Forall (fun b => Z.land (u8 b) 128 <> 0) r ->
              fst (getRemainLength_loop r acc m) = (0, 0)).
  { clear. induction r as [|b r IH]; intros acc m Hm Hall; cbn [getRemainLength_loop].
    - cbn [length] in Hm. destruct (decide (m < 27)); [reflexivity|lia].
    - cbn [length] in Hm. destruct (decide (m < 27)); [|lia].
      apply Forall_cons in Hall as [Hb Hall].
      destruct (decide (Z.land (u8 b) 128 = 0)); [contradiction|].
      apply IH; [lia|exact Hall]. }
  apply H; [lia|exact Hall].
Qed.

(** Two continuation bytes and nothing behind them. *)
Lemma getRemainLength_truncated_witness :
  getRemainLength [Byte.x80; Byte.xff] = (0, 0).
Proof.
  apply getRemainLength_truncated.
  - cbn. lia.
  - repeat constructor; discriminate.
Defined.

(** ** User properties *)

Lemma getStringData_encoded (str rest beyond : list byte) :
  Z.of_nat (length str) < 65536 ->
  getStringData (Some (mkslice (encodeStringWithLen str ++ rest) beyond))
  = Some (str, Some (mkslice rest beyond), None).
Proof.
  intros Hlen. unfold getStringData, encodeStringWithLen.
  rewrite getBinaryData_encoded. cbn [mbind option_bind from_option].
  rewrite bytes_mkslice, Z.mod_small, Nat2Z.id by lia.
  rewrite take_ge, drop_ge by lia. reflexivity.
Qed.

Lemma getStringData_empty (beyond : list byte) :
  getStringData (Some (mkslice [] beyond)) = Some ([], None, Some ErrDecodeBadPacket).
Proof. reflexivity. Qed.

Lemma getUserProps_loop_nil (strKey : list byte) (props : UserProps) :
  getUserProps_loop strKey None props = Some props.
Proof. apply getUserProps_loop_equation_2. Qed.

Lemma getUserProps_loop_step (strKey val strKey' : list byte) (s : slice)
  (next1 next2 : option slice) (e1 e2 : option error) (props : UserProps) :
  getStringData (Some s) = Some (val, next1, e1) ->
  getStringData next1 = Some (strKey', next2, e2) ->
  getUserProps_loop strKey (Some s) props
  = getUserProps_loop strKey' next2 (addUserProp props (strKey, val)).
Proof.
  intros E1 E2. rewrite getUserProps_loop_equation_1.
  destruct (inspect (getStringData (Some s))) as [r1 H1].
  assert (r1 = Some (val, next1, e1)) as -> by congruence.
  cbn [getUserProps_loop_unfold_clause_2].
  destruct (inspect (getStringData next1)) as [r2 H2].
  assert (r2 = Some (strKey', next2, e2)) as -> by congruence.
  reflexivity.
Qed.

Lemma getUserProps_loop_encoded (beyond : list byte)
  (kvs : list (list byte * list byte)) :
  Forall (fun kv => Z.of_nat (length kv.1) < 65536
                    /\ Z.of_nat (length kv.2) < 65536) kvs ->
  forall (k v : list byte) (props : UserProps),
  Z.of_nat (length v) < 65536 ->
  getUserProps_loop k
    (Some (mkslice (encodeStringWithLen v ++ encodeUserProps kvs) beyond)) props
  = Some (foldl addUserProp (addUserProp props (k, v)) kvs).
Proof.
  induction 1 as [|[k2 v2] kvs [Hk2 Hv2] Hall IH]; intros k v props Hv.
  - cbn [encodeUserProps flat_map foldl].
    rewrite (getUserProps_loop_step k v [] _ (Some (mkslice [] beyond)) None None
               (Some ErrDecodeBadPacket)).
    + apply getUserProps_loop_nil.
    + apply getStringData_encoded. exact Hv.
    + apply getStringData_empty.
  - cbn [encodeUserProps flat_map foldl fst snd].
    rewrite (getUserProps_loop_step k v k2 _
               (Some (mkslice (encodeStringWithLen k2 ++ encodeStringWithLen v2
                               ++ encodeUserProps kvs) beyond))
               (Some (mkslice (encodeStringWithLen v2 ++ encodeUserProps kvs) beyond))
               None None).
    + apply IH. exact Hv2.
    + rewrite <- app_assoc. apply getStringData_encoded. exact Hv.
    + apply getStringData_encoded. exact Hk2.
Qed.

(** X7. [getUserProps] reads back a list of key/value pairs written
    with their lengths in front (each string shorter than 65536 bytes):
    the map holds, for every key, its values in the order in which they
    were written, repeated keys included. *)
Theorem getUserProps_encodeUserProps (beyond : list byte)
  (kvs : list (list byte * list byte)) :
  Forall (fun kv => Z.of_nat (length kv.1) < 65536
                    /\ Z.of_nat (length kv.2) < 65536) kvs ->
  getUserProps (Some (mkslice (encodeUserProps kvs) beyond))
  = Some (foldl addUserProp ∅ kvs).
Proof.
  intros Hall. unfold getUserProps. destruct Hall as [|[k v] kvs [Hk Hv] Hall].
  - cbn [encodeUserProps flat_map foldl]. rewrite getStringData_empty.
    cbn [mbind option_bind]. apply getUserProps_loop_nil.
  - cbn [encodeUserProps flat_map foldl fst snd]. rewrite <- app_assoc.
    rewrite getStringData_encoded by exact Hk. cbn [mbind option_bind].
    apply getUserProps_loop_encoded; assumption.
Qed.

(** The key [a] twice, once with value [1] and once with the empty
    value. *)
Lemma getUserProps_encodeUserProps_witness :
  getUserProps
    (Some (mkslice (encodeUserProps [([Byte.x61], [Byte.x31]); ([Byte.x61], [])]) []))
  = Some (foldl addUserProp ∅ [([Byte.x61], [Byte.x31]); ([Byte.x61], [])]).
Proof.
  apply getUserProps_encodeUserProps.
  repeat constructor; cbn; lia.
Defined.

Lemma getUserProps_loop_dangling (beyond kd : list byte)
  (kvs : list (list byte * list byte)) :
  Z.of_nat (length kd) < 65536 ->
  Forall (fun kv => Z.of_nat (length kv.1) < 65536
                    /\ Z.of_nat (length kv.2) < 65536) kvs ->
  forall (k v : list byte) (props : UserProps),
  Z.of_nat (length v) < 65536 ->
  getUserProps_loop k
    (Some (mkslice (encodeStringWithLen v ++ encodeUserProps kvs
                    ++ encodeStringWithLen kd) beyond)) props
  = Some (addUserProp (foldl addUserProp (addUserProp props (k, v)) kvs) (kd, [])).
Proof.
  intros Hkd.
  induction 1 as [|[k2 v2] kvs [Hk2 Hv2] Hall IH]; intros k v props Hv.
  - cbn [encodeUserProps flat_map foldl app].
    rewrite (getUserProps_loop_step k v kd _
               (Some (mkslice (encodeStringWithLen kd) beyond))
               (Some (mkslice [] beyond)) None None).
    + rewrite (getUserProps_loop_step kd [] [] _ None None
                 (Some ErrDecodeBadPacket) (Some ErrDecodeBadPacket)).
      * apply getUserProps_loop_nil.
      * apply getStringData_empty.
      * reflexivity.
    + apply getStringData_encoded. exact Hv.
    + rewrite <- (app_nil_r (encodeStringWithLen kd)).
      apply getStringData_encoded. exact Hkd.
  - cbn [encodeUserProps flat_map foldl fst snd].
    rewrite (getUserProps_loop_step k v k2 _
               (Some (mkslice (encodeStringWithLen k2 ++ encodeStringWithLen v2
                               ++ encodeUserProps kvs ++ encodeStringWithLen kd) beyond))
               (Some (mkslice (encodeStringWithLen v2 ++ encodeUserProps kvs
                               ++ encodeStringWithLen kd) beyond))
               None None).
    + apply IH. exact Hv2.
    + rewrite <- !app_assoc. apply getStringData_encoded. exact Hv.
    + apply getStringData_encoded. exact Hk2.
Qed.

(** X8. A key with no value behind it is not refused: [getUserProps]
    records the empty string as a value of that key. *)
Theorem getUserProps_dangling_key (beyond : list byte)
  (kvs : list (list byte * list byte)) (k : list byte) :
  Forall (fun kv => Z.of_nat (length kv.1) < 65536
                    /\ Z.of_nat (length kv.2) < 65536) kvs ->
  Z.of_nat (length k) < 65536 ->
  getUserProps (Some (mkslice (encodeUserProps kvs ++ encodeStringWithLen k) beyond))
  = Some (addUserProp (foldl addUserProp ∅ kvs) (k, [])).
Proof.
  intros Hall Hk. unfold getUserProps. destruct Hall as [|[k1 v1] kvs [Hk1 Hv1] Hall].
  - cbn [encodeUserProps flat_map foldl app].
    rewrite <- (app_nil_r (encodeStringWithLen k)).
    rewrite getStringData_encoded by exact Hk. cbn [mbind option_bind].
    rewrite (getUserProps_loop_step k [] [] _ None None
               (Some ErrDecodeBadPacket) (Some ErrDecodeBadPacket)).
    + apply getUserProps_loop_nil.
    + apply getStringData_empty.
    + reflexivity.
  - cbn [encodeUserProps flat_map foldl fst snd]. rewrite <- !app_assoc.
    rewrite getStringData_encoded by exact Hk1. cbn [mbind option_bind].
    apply getUserProps_loop_dangling; assumption.
Qed.

(** The key [a] alone. *)
Lemma getUserProps_dangling_key_witness :
  getUserProps (Some (mkslice (encodeUserProps [] ++ encodeStringWithLen [Byte.x61]) []))
  = Some (addUserProp (foldl addUserProp ∅ []) ([Byte.x61], [])).
Proof.
  apply getUserProps_dangling_key.
  - constructor.
  - cbn. lia.
Defined.

(** ** Property lists, continued *)

Lemma propCase_recognized (key : byte) (propsBytes : slice) :
  is_Some (propCase key propsBytes) <-> key ∈ recognizedKeys.
Proof.
  unfold propCase, recognizedKeys.
  repeat (destruct (decide _) as [->|?];
          [split; [intros _; repeat constructor|intros _; eauto]|]).
  split; [intros [x Hx]; discriminate|].
  intros Hin. exfalso.
  repeat (apply elem_of_cons in Hin as [->|Hin]; [congruence|]).
  apply elem_of_nil in Hin. exact Hin.
Qed.




(** X10. A non-empty property block whose first key has no case in the
    [switch] is refused with [ErrDecodeBadPacket]. *)
Theorem getRawProps_unknown_key (data beyond : list byte) (key : byte) :
  0 < fst (getRemainLength data) ->
  data !! Z.to_nat (snd (getRemainLength data)) = Some key ->
  key ∉ recognizedKeys ->
  err (getRawProps (mkslice data beyond)) = Some ErrDecodeBadPacket.
Proof.
  intros Hpos Hkey Hun. unfold getRawProps. rewrite bytes_mkslice.
  destruct (getRemainLength data) as [propsLen byteLen] eqn:Erl. cbn [fst snd] in *.
  destruct (reslice (mkslice data beyond) byteLen (propsLen + byteLen))
    as [propsBytes|] eqn:Ers; [|reflexivity].
  destruct (reslice_from (mkslice data beyond) (propsLen + byteLen))
    as [nxt|] eqn:Erf; [|reflexivity].
  rewrite (getRawProps_loop_unknown_key propsLen propsBytes ∅ key); [reflexivity|exact Hpos| |].
  - unfold reslice in Ers. destruct (decide _) as [Hb|]; [|discriminate].
    injection Ers as <-. unfold index. cbn [len backing mkslice].
    destruct (decide _) as [_|]; [|lia].
    change (Z.to_nat 0) with 0%nat. rewrite lookup_drop, Nat.add_0_r.
    rewrite lookup_app_l; [exact Hkey|]. apply lookup_lt_Some in Hkey. exact Hkey.
  - destruct (propCase key propsBytes) eqn:E; [|reflexivity].
    exfalso. apply Hun. apply (propCase_recognized key propsBytes). rewrite E. eauto.
Qed.

(** A block of one byte holding the key 255. *)
Lemma getRawProps_unknown_key_witness :
  err (getRawProps (mkslice [Byte.x01; Byte.xff] [])) = Some ErrDecodeBadPacket.
Proof.
  apply (getRawProps_unknown_key _ _ Byte.xff).
  - reflexivity.
  - reflexivity.
  - unfold recognizedKeys. intros H. repeat (apply elem_of_cons in H as [H|H]; [discriminate H|]).
    apply elem_of_nil in H. exact H.
Defined.

(** ** Packet-id allocator, continued *)

Lemma next_loop_binds_at_most_one {Extra} (extra : Extra) (rem : nat) :
  forall (id : Z) (loaded : bool) (g : idGenerator Extra),
  usedIDs (snd (next_loop rem extra id loaded g)) = usedIDs g
  \/ exists k, usedIDs g !! k = None
               /\ usedIDs (snd (next_loop rem extra id loaded g))
                  = <[k := extra]> (usedIDs g).
Proof.
  induction rem as [|rem IH]; intros id loaded g; cbn [next_loop].
  - destruct loaded; auto.
  - destruct loaded; [|auto].
    unfold LoadOrStore, AddUint32.
    destruct (usedIDs g !! id) as [x|] eqn:Hlive; cbn [nextID usedIDs].
    + destruct (IH (uint16 (uint32 (nextID g + 1))) true
                  {| nextID := uint32 (nextID g + 1); usedIDs := usedIDs g |})
        as [H|H]; auto.
    + right. exists id. split; [exact Hlive|].
      destruct rem; reflexivity.
Qed.

(** X11. One call of [next] binds at most one id, to the value given,
    and only an id that was free; the bindings that were there stay as
    they were; the id returned is in 0..65535. *)
Theorem next_binds_at_most_one {Extra} (extra : Extra) (g : idGenerator Extra) :
  (usedIDs (snd (next extra g)) = usedIDs g
   \/ exists k, usedIDs g !! k = None
                /\ usedIDs (snd (next extra g)) = <[k := extra]> (usedIDs g))
  /\ (forall k x, usedIDs g !! k = Some x ->
                  usedIDs (snd (next extra g)) !! k = Some x)
  /\ 0 <= fst (next extra g) <= 65535.
Proof.
  assert (H : usedIDs (snd (next extra g)) = usedIDs g
              \/ exists k, usedIDs g !! k = None
                   /\ usedIDs (snd (next extra g)) = <[k := extra]> (usedIDs g)).
  { unfold next, AddUint32, StoreUint32, LoadOrStore. cbn [nextID usedIDs].
    destruct (decide (uint16 (uint32 (nextID g + 1)) = 0)) as [E|E];
      cbn [nextID usedIDs].
    - destruct (usedIDs g !! 1) as [x|] eqn:Hlive.
      + apply (next_loop_binds_at_most_one extra _ 1 true
                 {| nextID := uint32 1; usedIDs := usedIDs g |}).
      + right. exists 1. auto.
    - destruct (usedIDs g !! uint16 (uint32 (nextID g + 1))) as [x|] eqn:Hlive.
      + apply (next_loop_binds_at_most_one extra _ _ true
                 {| nextID := uint32 (nextID g + 1); usedIDs := usedIDs g |}).
      + right. eexists. split; [exact Hlive|reflexivity]. }
  split; [exact H|]. split.
  - intros k x Hk. destruct H as [->|(k' & Hnone & ->)]; [exact Hk|].
    rewrite lookup_insert_ne; [exact Hk|]. intros ->. congruence.
  - assert (Hloop : forall rem id loaded (g0 : idGenerator Extra),
              0 <= id <= 65535 ->
              0 <= fst (next_loop rem extra id loaded g0) <= 65535).
    { clear. induction rem as [|rem IH]; intros id loaded g0 Hid; cbn [next_loop].
      - destruct loaded; cbn; lia.
      - destruct loaded; [|cbn; lia].
        destruct (LoadOrStore g0 id extra) as [l g1].
        destruct (AddUint32 g1 1) as [v g2].
        apply IH. unfold uint16.
        pose proof (Z.mod_pos_bound v 65536 ltac:(lia)). lia. }
    unfold next. destruct (AddUint32 g 1) as [v g1].
    pose proof (Z.mod_pos_bound v 65536 ltac:(lia)) as Hv. fold (uint16 v) in Hv.
    destruct (decide (uint16 v = 0)).
    + destruct (LoadOrStore (StoreUint32 g1 1) 1 extra) as [[] g2];
        [apply Hloop; lia|cbn; lia].
    + destruct (LoadOrStore g1 (uint16 v) extra) as [[] g2];
        [apply Hloop; lia|cbn; lia].
Qed.

(** X12. When the candidate id is free, [next] returns it (an id in
    1..65535), [getExtra] of it gives the value bound, the other ids read
    as before, and [free] of it takes the side table back to what it was
    before the call. *)
Theorem next_getExtra_free_roundtrip {Extra} (extra : Extra)
  (g : idGenerator Extra) :
  let v := uint16 (uint32 (nextID g + 1)) in
  let id := if decide (v = 0) then 1 else v in
  usedIDs g !! id = None ->
  1 <= id <= 65535
  /\ fst (next extra g) = id
  /\ getExtra id (snd (next extra g)) = Some extra
  /\ getExtra id (free id (snd (next extra g))) = None
  /\ usedIDs (free id (snd (next extra g))) = usedIDs g
  /\ (forall k, k <> id ->
        getExtra k (snd (next extra g)) = getExtra k g).
Proof.
  cbn zeta. intros Hfree.
  destruct (next_no_collision extra g Hfree) as (Hrange & Hid & Hused).
  unfold getExtra, free. cbn [usedIDs]. rewrite Hused.
  split; [exact Hrange|]. split; [exact Hid|]. split; [apply lookup_insert_eq|].
  split; [apply lookup_delete_eq|]. split.
  - rewrite delete_insert_eq. apply delete_id. exact Hfree.
  - intros k Hk. apply lookup_insert_ne. congruence.
Qed.

(** The counter at 65535 wraps to id 1, which is free. *)
Lemma next_getExtra_free_roundtrip_witness :
  fst (next "a"%string {| nextID := 65535; usedIDs := {[ 7 := "b"%string ]} |}) = 1
  /\ getExtra 1
       (snd (next "a"%string {| nextID := 65535; usedIDs := {[ 7 := "b"%string ]} |}))
     = Some "a"%string
  /\ usedIDs
       (free 1
          (snd (next "a"%string
                  {| nextID := 65535; usedIDs := {[ 7 := "b"%string ]} |})))
     = {[ 7 := "b"%string ]}.
Proof.
  assert (Hnone : usedIDs {| nextID := 65535; usedIDs := {[ 7 := "b"%string ]} |}
                   !! 1 = None) by (vm_compute; reflexivity).
  destruct (next_getExtra_free_roundtrip "a"%string
              {| nextID := 65535; usedIDs := {[ 7 := "b"%string ]} |} Hnone)
    as (_ & Hid & Hget & _ & Hfree & _).
  repeat split; assumption.
Defined.

(** Id 1 is live and the counter at 0: the id returned after the
    collision is one that is bound to nothing. *)
Lemma next_after_collision_returns_unbound_witness :
  usedIDs (snd (next "c"%string
                  {| nextID := 0; usedIDs := {[ 1 := "a"%string ]} |}))
  !! fst (next "c"%string {| nextID := 0; usedIDs := {[ 1 := "a"%string ]} |})
  = None.
Proof.
  rewrite (next_after_collision_returns_unbound "c"%string
             {| nextID := 0; usedIDs := {[ 1 := "a"%string ]} |}).
  - vm_compute. reflexivity.
  - exists "a"%string. vm_compute. reflexivity.
Defined.

(** ** The logic loop, packet by packet *)

(** Unfolds the calls on the client's collaborators. *)
Ltac unfold_calls :=
  unfold notifyPubMsg, notifySubMsg, notifyUnSubMsg, send_msg, send_sendCh,
    send_recvCh, chan_send, persist_Store, persist_Delete, idGen_free,
    idGen_next, idGen_getExtra, conn_send, client_exit, store_obj, emit,
    set_cli, set_heap, with_msgCh, with_sendCh, with_recvCh, with_idGen,
    with_persist, with_ctxDone, load_publish, load_subscribe, load_unsub,
    load_topic in *;
  cbn [heap cli trace options msgCh sendCh recvCh idGen persist ctxDone
       mbind outcome_bind fst snd] in *.

Lemma flow_done_run {PS} `{!PersistMethod PS} (m : message) (id : Z)
  (w : world PS) (mch : chan message) :
  msgCh (cli w) = Some mch ->
  exists w',
    (w1 ← send_msg m w;
     let w2 := idGen_free id w1 in
     let '(e, w3) := persist_Delete (sendKey id) w2 in
     notifyPersistMsg e w3) = Ret w'
    /\ flow_done m id w w'.
Proof.
  intros Hm. destruct w as [h c tr]. destruct c as [o mc sc rc g ps cd].
  cbn in Hm. subst. unfold flow_done. unfold_calls.
  destruct (pDelete (sendKey id) ps) as [e ps'].
  destruct e as [e|]; cbn [notifyPersistMsg persist_events]; unfold_calls;
    (eexists; split; [reflexivity|]); cbn; rewrite <- ?app_assoc; auto 10.
Qed.

(** X13. An UnSubAck for an id that holds an unsubscribe request
    completes it: the unsubscribe event with the requested names and a nil
    error is emitted, then the id is freed, then [S<id>] is deleted, an
    error of the store going to the event channel. *)
Theorem UnSubAck_completes {PS} `{!PersistMethod PS} (w : world PS)
  (PacketID : Z) (o : loc) (u : UnSubPacket.t) (mch : chan message) :
  idGen_getExtra PacketID w = Some (UnSubRef o) ->
  heap w !! o = Some (OUnSub u) ->
  msgCh (cli w) = Some mch ->
  exists w',
    logic_recv (UnSubAckPacket PacketID) w = Ret w'
    /\ flow_done (unSubMsg (UnSubPacket.TopicNames u) None) PacketID w w'.
Proof.
  intros Hex Ho Hm.
  destruct (flow_done_run (unSubMsg (UnSubPacket.TopicNames u) None) PacketID w mch Hm)
    as (w' & Hrun & Hdone).
  exists w'. split; [|exact Hdone].
  unfold logic_recv. rewrite Hex. unfold load_unsub. rewrite Ho.
  cbn [mbind outcome_bind]. exact Hrun.
Qed.

(** X14. A PubAck for an id that holds an outbound publish completes
    it when the publish has qos 1 (publish event with a nil error, id
    freed, [S<id>] deleted) and is ignored otherwise. *)
Theorem PubAck_completes_qos1 {PS} `{!PersistMethod PS} (w : world PS)
  (PacketID : Z) (o : loc) (p : PublishPacket.t) (mch : chan message) :
  idGen_getExtra PacketID w = Some (PublishRef o) ->
  heap w !! o = Some (OPublish p) ->
  msgCh (cli w) = Some mch ->
  if decide (PublishPacket.Qos p = 1)
  then exists w',
         logic_recv (PubAckPacket PacketID) w = Ret w'
         /\ flow_done (pubMsg (PublishPacket.TopicName p) None) PacketID w w'
  else logic_recv (PubAckPacket PacketID) w = Ret w.
Proof.
  intros Hex Ho Hm. unfold logic_recv. rewrite Hex. unfold load_publish.
  rewrite Ho. cbn [mbind outcome_bind]. unfold Qos1.
  destruct (decide (PublishPacket.Qos p = 1)); [|reflexivity].
  apply (flow_done_run _ _ _ mch Hm).
Qed.

(** The UnSubAck for the request of [sample_unsubscribed_world]. *)
Lemma UnSubAck_completes_witness :
  exists w',
    logic_recv (UnSubAckPacket 1) sample_unsubscribed_world = Ret w'
    /\ flow_done (unSubMsg ["a/b"%string] None) 1 sample_unsubscribed_world w'.
Proof.
  apply (UnSubAck_completes sample_unsubscribed_world 1 3%positive
           (UnSubPacket.mk ["a/b"%string] 1) (Chan 10 []));
    vm_compute; reflexivity.
Defined.

(** The PubAck for a qos 1 publish in flight. *)
Lemma PubAck_completes_qos1_witness :
  exists w',
    logic_recv (PubAckPacket 1) (sample_inflight_world 1) = Ret w'
    /\ flow_done (pubMsg "t" None) 1 (sample_inflight_world 1) w'.
Proof.
  apply (PubAck_completes_qos1 (sample_inflight_world 1) 1 1%positive
           (PublishPacket.mk "t" [] 1 1) (Chan 10 []));
    vm_compute; reflexivity.
Defined.

(** X15. The outbound qos 2 handshake. For an id that holds a publish
    of qos 2, a PubRec makes the loop send a PubRel and nothing else: the
    id stays live and the store is not touched. A PubComp makes it send a
    PubRel once more and then complete the flow (publish event, id freed,
    [S<id>] deleted). For a publish of another qos, PubRec, PubRel and
    PubComp are ignored. *)
Theorem qos2_handshake {PS} `{!PersistMethod PS} (w : world PS)
  (PacketID : Z) (o : loc) (p : PublishPacket.t) (mch : chan message) :
  idGen_getExtra PacketID w = Some (PublishRef o) ->
  heap w !! o = Some (OPublish p) ->
  msgCh (cli w) = Some mch ->
  if decide (PublishPacket.Qos p = 2)
  then logic_recv (PubRecvPacket PacketID) w
       = Ret (emit (ELogicSend (PubRelPacket PacketID)) w)
       /\ exists w',
            logic_recv (PubCompPacket PacketID) w = Ret w'
            /\ flow_done (pubMsg (PublishPacket.TopicName p) None) PacketID
                 (emit (ELogicSend (PubRelPacket PacketID)) w) w'
  else logic_recv (PubRecvPacket PacketID) w = Ret w
       /\ logic_recv (PubRelPacket PacketID) w = Ret w
       /\ logic_recv (PubCompPacket PacketID) w = Ret w.
Proof.
  intros Hex Ho Hm. unfold logic_recv. rewrite Hex. unfold load_publish.
  rewrite Ho. cbn [mbind outcome_bind]. unfold Qos2.
  destruct (decide (PublishPacket.Qos p = 2)); [|auto].
  split; [reflexivity|]. unfold conn_send.
  apply (flow_done_run _ _ (emit (ELogicSend (PubRelPacket PacketID)) w) mch).
  exact Hm.
Qed.

(** A qos 2 publish in flight. *)
Lemma qos2_handshake_witness :
  logic_recv (PubRecvPacket 1) (sample_inflight_world 2)
  = Ret (emit (ELogicSend (PubRelPacket 1)) (sample_inflight_world 2))
  /\ exists w',
       logic_recv (PubCompPacket 1) (sample_inflight_world 2) = Ret w'
       /\ flow_done (pubMsg "t" None) 1
            (emit (ELogicSend (PubRelPacket 1)) (sample_inflight_world 2)) w'.
Proof.
  apply (qos2_handshake (sample_inflight_world 2) 1 1%positive
           (PublishPacket.mk "t" [] 2 1) (Chan 10 []));
    vm_compute; reflexivity.
Defined.

(** X16. A PubRel from the server is answered through the side table
    of outbound packets: when its id holds an outbound publish of qos 2,
    the loop sends a PubComp and stores the PubRel under [R<id>]; the id
    stays live. *)
Theorem PubRel_needs_outbound_origin {PS} `{!PersistMethod PS} (w : world PS)
  (PacketID : Z) (o : loc) (p : PublishPacket.t) (mch : chan message) :
  idGen_getExtra PacketID w = Some (PublishRef o) ->
  heap w !! o = Some (OPublish p) ->
  PublishPacket.Qos p = 2 ->
  msgCh (cli w) = Some mch ->
  exists w',
    logic_recv (PubRelPacket PacketID) w = Ret w'
    /\ heap w' = heap w
    /\ idGen (cli w') = idGen (cli w)
    /\ persist (cli w')
       = snd (pStore (recvKey PacketID) (PubRelPacket PacketID) (persist (cli w)))
    /\ trace w' = trace w
         ++ [ELogicSend (PubCompPacket PacketID);
             EStore (recvKey PacketID) (PubRelPacket PacketID)]
         ++ persist_events
              (fst (pStore (recvKey PacketID) (PubRelPacket PacketID)
                      (persist (cli w)))).
Proof.
  intros Hex Ho Hq Hm. unfold logic_recv. rewrite Hex. unfold load_publish.
  rewrite Ho. cbn [mbind outcome_bind]. unfold Qos2.
  destruct (decide (PublishPacket.Qos p = 2)); [|contradiction].
  destruct w as [h c tr]. destruct c as [op mc sc rc g ps cd].
  cbn in Hm. subst. unfold_calls.
  destruct (pStore (recvKey PacketID) (PubRelPacket PacketID) ps) as [r ps'].
  destruct r as [r|]; cbn [notifyPersistMsg persist_events]; unfold_calls;
    (eexists; split; [reflexivity|]); cbn; rewrite <- ?app_assoc; auto 10.
Qed.

(** With a qos 2 publish in flight under id 1 the store ends up with
    [S1] and [R1]. *)
Lemma PubRel_needs_outbound_origin_witness :
  exists w',
    logic_recv (PubRelPacket 1) (sample_inflight_world 2) = Ret w'
    /\ persist (cli w')
       = {[ "S1"%string := PublishRef 1%positive;
            "R1"%string := PubRelPacket 1 ]}.
Proof.
  destruct (PubRel_needs_outbound_origin (sample_inflight_world 2) 1 1%positive
              (PublishPacket.mk "t" [] 2 1) (Chan 10 [])
              ltac:(vm_compute; reflexivity) ltac:(vm_compute; reflexivity)
              eq_refl ltac:(vm_compute; reflexivity))
    as (w' & Hrun & _ & _ & Hps & _).
  exists w'. split; [exact Hrun|]. rewrite Hps. vm_compute. reflexivity.
Defined.

(** X17. Acknowledgements that match nothing are dropped without any
    effect: a PubAck, PubRec, PubRel or PubComp whose id does not hold a
    publish, a SubAck whose id does not hold a subscribe request, an
    UnSubAck whose id does not hold an unsubscribe request. In particular
    a PubRel for an inbound qos 2 publish gets no PubComp unless an
    outbound publish happens to hold the same id. Packets of the other
    kinds are dropped as well. *)
Theorem logic_ignores_unmatched {PS} `{!PersistMethod PS} (w : world PS)
  (PacketID : Z) :
  ((forall o, idGen_getExtra PacketID w <> Some (PublishRef o)) ->
   logic_recv (PubAckPacket PacketID) w = Ret w
   /\ logic_recv (PubRecvPacket PacketID) w = Ret w
   /\ logic_recv (PubRelPacket PacketID) w = Ret w
   /\ logic_recv (PubCompPacket PacketID) w = Ret w)
  /\ ((forall o, idGen_getExtra PacketID w <> Some (SubscribeRef o)) ->
      forall Codes, logic_recv (SubAckPacket PacketID Codes) w = Ret w)
  /\ ((forall o, idGen_getExtra PacketID w <> Some (UnSubRef o)) ->
      logic_recv (UnSubAckPacket PacketID) w = Ret w)
  /\ (forall pkt,
        match Type_ pkt with
        | CtrlConn | CtrlConnAck | CtrlSubscribe | CtrlUnSub | CtrlPingReq
        | CtrlPingResp | CtrlDisConn => logic_recv pkt w = Ret w
        | _ => True
        end).
Proof.
  repeat apply conj.
  - intros Hno. unfold logic_recv.
    destruct (idGen_getExtra PacketID w) as [[]|]; auto.
    exfalso. eapply Hno. reflexivity.
  - intros Hno Codes. unfold logic_recv.
    destruct (idGen_getExtra PacketID w) as [[]|]; auto.
    exfalso. eapply Hno. reflexivity.
  - intros Hno. unfold logic_recv.
    destruct (idGen_getExtra PacketID w) as [[]|]; auto.
    exfalso. eapply Hno. reflexivity.
  - intros pkt. destruct pkt; cbn; auto.
Qed.

(** X18. A publish from the server is forwarded on the receive
    channel first; then qos 1 is answered with a PubAck and qos 2 with a
    PubRec, and in both cases the publish is stored under [R<id>]; any
    other qos gets no answer and no store. The allocator, the heap and
    the outbound channel are not touched. *)
Theorem inbound_publish {PS} `{!PersistMethod PS} (w : world PS)
  (l : loc) (p : PublishPacket.t) (mch : chan message) (rch : chan loc) :
  heap w !! l = Some (OPublish p) ->
  msgCh (cli w) = Some mch ->
  recvCh (cli w) = Some rch ->
  let id := PublishPacket.PacketID p in
  let ack := if decide (PublishPacket.Qos p = 1) then Some (PubAckPacket id)
             else if decide (PublishPacket.Qos p = 2) then Some (PubRecvPacket id)
             else None in
  exists w',
    logic_recv (PublishRef l) w = Ret w'
    /\ heap w' = heap w
    /\ idGen (cli w') = idGen (cli w)
    /\ sendCh (cli w') = sendCh (cli w)
    /\ recvCh (cli w') = Some (Chan (chan_cap rch) (chan_buf rch ++ [l]))
    /\ match ack with
       | Some a =>
           persist (cli w')
           = snd (pStore (recvKey id) (PublishRef l) (persist (cli w)))
           /\ trace w' = trace w
                ++ [ERecvCh l; ELogicSend a; EStore (recvKey id) (PublishRef l)]
                ++ persist_events
                     (fst (pStore (recvKey id) (PublishRef l) (persist (cli w))))
       | None =>
           persist (cli w') = persist (cli w)
           /\ trace w' = trace w ++ [ERecvCh l]
       end.
Proof.
  intros Hl Hm Hr. cbn zeta. unfold logic_recv, load_publish. rewrite Hl.
  cbn [mbind outcome_bind].
  destruct w as [h c tr]. destruct c as [op mc sc rc g ps cd].
  cbn in Hm, Hr. subst. unfold_calls. unfold Qos1, Qos2.
  destruct (decide (PublishPacket.Qos p = 1)).
  - destruct (pStore (recvKey (PublishPacket.PacketID p)) (PublishRef l) ps)
      as [r ps'].
    destruct r as [r|]; cbn [notifyPersistMsg persist_events]; unfold_calls;
      (eexists; split; [reflexivity|]); cbn; rewrite <- ?app_assoc; auto 10.
  - destruct (decide (PublishPacket.Qos p = 2)).
    + destruct (pStore (recvKey (PublishPacket.PacketID p)) (PublishRef l) ps)
        as [r ps'].
      destruct r as [r|]; cbn [notifyPersistMsg persist_events]; unfold_calls;
        (eexists; split; [reflexivity|]); cbn; rewrite <- ?app_assoc; auto 10.
    + eexists. split; [reflexivity|]. cbn. auto 10.
Qed.

(** A qos 2 publish with id 0 arriving at [sample_publish_world]. *)
Lemma inbound_publish_witness :
  exists w',
    logic_recv (PublishRef 1%positive) (sample_publish_world 2) = Ret w'
    /\ recvCh (cli w') = Some (Chan 1 [1%positive])
    /\ trace w' = [ERecvCh 1%positive; ELogicSend (PubRecvPacket 0);
                   EStore "R0" (PublishRef 1%positive)].
Proof.
  destruct (inbound_publish (sample_publish_world 2) 1%positive
              (PublishPacket.mk "t" [] 2 0) (Chan 10 []) (Chan 1 [])
              ltac:(vm_compute; reflexivity) eq_refl eq_refl)
    as (w' & Hrun & _ & _ & _ & Hrecv & _ & Htr).
  exists w'. split; [exact Hrun|]. split; [exact Hrecv|exact Htr].
Defined.

(** ** What the logic loop leaves alone *)

Section Frame.
Context {PS : Type} `{!PersistMethod PS}.
Implicit Types w : world PS.

Lemma logic_frame_refl w : logic_frame w w.
Proof. unfold logic_frame. repeat split; auto. Qed.

Lemma logic_frame_trans w0 w1 w2 :
  logic_frame w0 w1 -> logic_frame w1 w2 -> logic_frame w0 w2.
Proof.
  intros (A1 & A2 & A3 & A4 & A5 & A6) (B1 & B2 & B3 & B4 & B5 & B6).
  unfold logic_frame. repeat split; try congruence.
  - etrans; eassumption.
  - intros l. destruct (B6 l) as [E|(t & t' & E1 & E2 & E3)];
      destruct (A6 l) as [F|(u & u' & F1 & F2 & F3)].
    + left. congruence.
    + right. exists u, u'. repeat split; congruence.
    + right. exists t, t'. repeat split; congruence.
    + right. exists u, t'. repeat split; congruence.
Qed.

Lemma logic_frame_emit e w : logic_frame w (emit e w).
Proof. unfold logic_frame. cbn. repeat split; auto. Qed.

Lemma logic_frame_send_msg m w w' : send_msg m w = Ret w' -> logic_frame w w'.
Proof.
  unfold send_msg. destruct (chan_send _ _); cbn; try discriminate.
  intros [= <-]. unfold logic_frame. cbn. repeat split; auto.
Qed.

Lemma logic_frame_notifyPersistMsg e w w' :
  notifyPersistMsg e w = Ret w' -> logic_frame w w'.
Proof.
  destruct e; cbn.
  - apply logic_frame_send_msg.
  - intros [= <-]. apply logic_frame_refl.
Qed.

Lemma logic_frame_persist_Store key p e w w' :
  persist_Store key p w = (e, w') -> logic_frame w w'.
Proof.
  unfold persist_Store. destruct (pStore _ _ _). intros [= _ <-].
  unfold logic_frame. cbn. repeat split; auto.
Qed.

Lemma logic_frame_persist_Delete key e w w' :
  persist_Delete key w = (e, w') -> logic_frame w w'.
Proof.
  unfold persist_Delete. destruct (pDelete _ _). intros [= _ <-].
  unfold logic_frame. cbn. repeat split; auto.
Qed.

Lemma logic_frame_idGen_free id w : logic_frame w (idGen_free id w).
Proof.
  unfold logic_frame. cbn. repeat split; auto. apply delete_subseteq.
Qed.

Lemma logic_frame_send_recvCh p w w' :
  send_recvCh p w = Ret w' -> logic_frame w w'.
Proof.
  unfold send_recvCh. destruct (chan_send _ _); cbn; try discriminate.
  intros [= <-]. unfold logic_frame. cbn. repeat split; auto.
Qed.

Lemma logic_frame_overlayCodes Codes topics : forall i w w',
  overlayCodes i topics Codes w = Ret w' -> logic_frame w w'.
Proof.
  induction topics as [|v topics IH]; intros i w w'; cbn [overlayCodes].
  - intros [= <-]. apply logic_frame_refl.
  - destruct (Codes !! i) as [code|]; cbn [mbind outcome_bind].
    + destruct v as [l|]; [|discriminate].
      unfold load_topic.
      destruct (heap w !! l) as [[t| | |]|] eqn:Hl; cbn [mbind outcome_bind];
        try discriminate.
      intros H. apply IH in H. refine (logic_frame_trans _ _ _ _ H).
      unfold logic_frame. cbn. repeat split; auto.
      intros l'. destruct (decide (l' = l)) as [->|Hne].
      * right. exists t, (Topic.mk (Topic.Name t) code).
        rewrite lookup_insert_eq. auto.
      * left. apply lookup_insert_ne. congruence.
    + apply IH.
Qed.
End Frame.

(** Walks back from the final state along the calls that produced it,
    for [logic_frame] and for [only logic_effect_ok]. *)
Ltac frame_back :=
  unfold notifyPubMsg, notifySubMsg, notifyUnSubMsg, conn_send in *;
  repeat first
    [ apply logic_frame_refl
    | match goal with
      | |- logic_frame _ (if ?d then _ else _) => destruct d
      | |- logic_frame _ (emit _ ?w) =>
          apply (logic_frame_trans _ w); [|apply logic_frame_emit]
      | |- logic_frame _ (idGen_free _ ?w) =>
          apply (logic_frame_trans _ w); [|apply logic_frame_idGen_free]
      | H : send_msg _ ?w = Ret ?w' |- logic_frame _ ?w' =>
          apply (logic_frame_trans _ w); [|apply (logic_frame_send_msg _ _ _ H)];
          clear H
      | H : notifyPersistMsg _ ?w = Ret ?w' |- logic_frame _ ?w' =>
          apply (logic_frame_trans _ w);
          [|apply (logic_frame_notifyPersistMsg _ _ _ H)]; clear H
      | H : persist_Store _ _ ?w = (_, ?w') |- logic_frame _ ?w' =>
          apply (logic_frame_trans _ w);
          [|apply (logic_frame_persist_Store _ _ _ _ _ H)]; clear H
      | H : persist_Delete _ ?w = (_, ?w') |- logic_frame _ ?w' =>
          apply (logic_frame_trans _ w);
          [|apply (logic_frame_persist_Delete _ _ _ _ H)]; clear H
      | H : send_recvCh _ ?w = Ret ?w' |- logic_frame _ ?w' =>
          apply (logic_frame_trans _ w); [|apply (logic_frame_send_recvCh _ _ _ H)];
          clear H
      | H : overlayCodes _ _ _ ?w = Ret ?w' |- logic_frame _ ?w' =>
          apply (logic_frame_trans _ w);
          [|apply (logic_frame_overlayCodes _ _ _ _ _ H)]; clear H
      end ].

Ltac effect_ok := first [exact I | reflexivity | eexists; reflexivity].

Ltac effects_back :=
  unfold notifyPubMsg, notifySubMsg, notifyUnSubMsg, conn_send in *;
  repeat first
    [ apply only_refl
    | apply only_idGen_free; [effect_ok|]
    | apply only_emit; [effect_ok|]
    | match goal with
      | |- only _ _ (if ?d then _ else _) => destruct d
      | H : send_msg _ _ = Ret ?w' |- only _ _ ?w' =>
          apply (only_send_msg _ _ _ _ _ H); [effect_ok|]; clear H
      | H : notifyPersistMsg _ _ = Ret ?w' |- only _ _ ?w' =>
          apply (only_notifyPersistMsg _ _ _ _ _ H); [intros; effect_ok|]; clear H
      | H : persist_Store _ _ _ = (_, ?w') |- only _ _ ?w' =>
          apply (only_persist_Store _ _ _ _ _ _ _ H); [effect_ok|]; clear H
      | H : persist_Delete _ _ = (_, ?w') |- only _ _ ?w' =>
          apply (only_persist_Delete _ _ _ _ _ _ H); [effect_ok|]; clear H
      | H : send_recvCh _ _ = Ret ?w' |- only _ _ ?w' =>
          apply (only_send_recvCh _ _ _ _ _ H); [effect_ok|]; clear H
      | H : overlayCodes _ _ _ _ = Ret ?w' |- only _ _ ?w' =>
          apply (only_same_trace _ _ _ _ (overlayCodes_trace _ _ _ _ _ H)); clear H
      end ].

(** X19. Whatever the packet, the logic loop leaves the options, the
    outbound channel, the client's context and the id counter alone,
    never adds an entry to the side table, changes nothing on the heap but
    the qos of topics, stores under receive keys only, deletes send keys
    only, and sends only packets that belong on the logic-send channel. *)
Theorem logic_recv_frame {PS} `{!PersistMethod PS} (pkt : Packet)
  (w w' : world PS) :
  logic_recv pkt w = Ret w' ->
  logic_frame w w' /\ only logic_effect_ok w w'.
Proof.
  unfold logic_recv. intros H. split.
  - destruct pkt; outcome_cases H; frame_back.
  - destruct pkt; outcome_cases H; effects_back.
Qed.

(** The SubAck for the request of [sample_subscribed_world]. *)
Lemma logic_recv_frame_witness :
  logic_frame sample_subscribed_world
    (run sample_subscribed_world
       (logic_recv (SubAckPacket 1 [2]) sample_subscribed_world))
  /\ only logic_effect_ok sample_subscribed_world
       (run sample_subscribed_world
          (logic_recv (SubAckPacket 1 [2]) sample_subscribed_world)).
Proof.
  apply (logic_recv_frame (SubAckPacket 1 [2])).
  vm_compute. reflexivity.
Defined.

(** ** The send pump, continued *)



(** ** Subscribe and UnSubscribe *)

(** X21. [Subscribe] on a client that is not closing builds a new
    packet with the topics given, binds a fresh id to it in the side
    table, records the id in the packet and puts the packet on the
    outbound channel. Unlike [Publish] it stores nothing. *)
Theorem Subscribe_registers {PS} `{!PersistMethod PS} (w : world PS)
  (topics : list (option loc)) (sch : chan Packet) :
  isClosing w = false ->
  sendCh (cli w) = Some sch ->
  let s := fresh (dom (heap w)) in
  let id := fst (next (SubscribeRef s) (idGen (cli w))) in
  exists w',
    Subscribe topics w = Ret w'
    /\ heap w !! s = None
    /\ heap w' = <[s := OSubscribe (SubscribePacket.mk topics id)]> (heap w)
    /\ idGen (cli w') = snd (next (SubscribeRef s) (idGen (cli w)))
    /\ persist (cli w') = persist (cli w)
    /\ sendCh (cli w')
       = Some (Chan (chan_cap sch) (chan_buf sch ++ [SubscribeRef s]))
    /\ trace w' = trace w ++ [ENext (SubscribeRef s) id; ESendCh (SubscribeRef s)].
Proof.
  intros Hopen Hs. cbn zeta. unfold Subscribe. rewrite Hopen.
  destruct w as [h c tr]. destruct c as [op mc sc rc g ps cd].
  cbn in Hs. subst. unfold_calls.
  destruct (next (SubscribeRef (fresh (dom h))) g) as [id g'].
  unfold_calls. eexists. split; [reflexivity|]. cbn.
  repeat split.
  - apply not_elem_of_dom. apply is_fresh.
  - apply insert_insert_eq.
  - rewrite <- app_assoc. reflexivity.
Qed.

(** [Subscribe] of the topic at address 2 in [sample_world]. *)
Lemma Subscribe_registers_witness :
  exists w',
    Subscribe [Some 2%positive] sample_world = Ret w'
    /\ heap w' !! 3%positive
       = Some (OSubscribe (SubscribePacket.mk [Some 2%positive] 1))
    /\ trace w' = [ENext (SubscribeRef 3%positive) 1; ESendCh (SubscribeRef 3%positive)].
Proof.
  destruct (Subscribe_registers sample_world [Some 2%positive] (Chan 1 [])
              eq_refl eq_refl)
    as (w' & Hrun & _ & Hheap & _ & _ & _ & Htr).
  exists w'. split; [exact Hrun|]. split.
  - rewrite Hheap. vm_compute. reflexivity.
  - rewrite Htr. vm_compute. reflexivity.
Defined.

(** X22. [UnSubscribe] does the same with a list of topic names. *)
Theorem UnSubscribe_registers {PS} `{!PersistMethod PS} (w : world PS)
  (topics : list string) (sch : chan Packet) :
  isClosing w = false ->
  sendCh (cli w) = Some sch ->
  let u := fresh (dom (heap w)) in
  let id := fst (next (UnSubRef u) (idGen (cli w))) in
  exists w',
    UnSubscribe topics w = Ret w'
    /\ heap w !! u = None
    /\ heap w' = <[u := OUnSub (UnSubPacket.mk topics id)]> (heap w)
    /\ idGen (cli w') = snd (next (UnSubRef u) (idGen (cli w)))
    /\ persist (cli w') = persist (cli w)
    /\ sendCh (cli w')
       = Some (Chan (chan_cap sch) (chan_buf sch ++ [UnSubRef u]))
    /\ trace w' = trace w ++ [ENext (UnSubRef u) id; ESendCh (UnSubRef u)].
Proof.
  intros Hopen Hs. cbn zeta. unfold UnSubscribe. rewrite Hopen.
  destruct w as [h c tr]. destruct c as [op mc sc rc g ps cd].
  cbn in Hs. subst. unfold_calls.
  destruct (next (UnSubRef (fresh (dom h))) g) as [id g'].
  unfold_calls. eexists. split; [reflexivity|]. cbn.
  repeat split.
  - apply not_elem_of_dom. apply is_fresh.
  - apply insert_insert_eq.
  - rewrite <- app_assoc. reflexivity.
Qed.

(** [UnSubscribe] of one name in [sample_world]. *)
Lemma UnSubscribe_registers_witness :
  exists w',
    UnSubscribe ["a/b"%string] sample_world = Ret w'
    /\ heap w' !! 3%positive
       = Some (OUnSub (UnSubPacket.mk ["a/b"%string] 1))
    /\ trace w' = [ENext (UnSubRef 3%positive) 1; ESendCh (UnSubRef 3%positive)].
Proof.
  destruct (UnSubscribe_registers sample_world ["a/b"%string] (Chan 1 [])
              eq_refl eq_refl)
    as (w' & Hrun & _ & Hheap & _ & _ & _ & Htr).
  exists w'. split; [exact Hrun|]. split.
  - rewrite Hheap. vm_compute. reflexivity.
  - rewrite Htr. vm_compute. reflexivity.
Defined.

(** ** Flows from the call to the acknowledgement *)

(** X23. From the call to the acknowledgement: after [UnSubscribe],
    when the id was allocated without a collision, the UnSubAck for that
    id puts the unsubscribe event with the names given on the event
    channel and takes the side table back to what it was before the
    call. *)
Theorem UnSubscribe_then_UnSubAck {PS} `{!PersistMethod PS} (w : world PS)
  (topics : list string) (sch : chan Packet) (mch : chan message) :
  isClosing w = false ->
  sendCh (cli w) = Some sch ->
  msgCh (cli w) = Some mch ->
  let v := uint16 (uint32 (nextID (idGen (cli w)) + 1)) in
  let id := if decide (v = 0) then 1 else v in
  usedIDs (idGen (cli w)) !! id = None ->
  exists w1 w2,
    UnSubscribe topics w = Ret w1
    /\ logic_recv (UnSubAckPacket id) w1 = Ret w2
    /\ usedIDs (idGen (cli w2)) = usedIDs (idGen (cli w))
    /\ msgCh (cli w2)
       = Some (Chan (chan_cap mch)
                 (chan_buf mch ++ [unSubMsg topics None]
                  ++ match fst (pDelete (sendKey id) (persist (cli w))) with
                     | Some e => [persistMsg e]
                     | None => []
                     end))
    /\ trace w2 = trace w
         ++ [ENext (UnSubRef (fresh (dom (heap w)))) id;
             ESendCh (UnSubRef (fresh (dom (heap w))));
             EMsg (unSubMsg topics None); EFree id; EDelete (sendKey id)]
         ++ persist_events (fst (pDelete (sendKey id) (persist (cli w)))).
Proof.
  intros Hopen Hs Hm. cbn zeta. intros Hfree.
  destruct (next_no_collision (UnSubRef (fresh (dom (heap w)))) (idGen (cli w)) Hfree)
    as (_ & Hid & Hused).
  unfold UnSubscribe. rewrite Hopen.
  destruct w as [h c tr]. destruct c as [op mc sc rc g ps cd].
  cbn [heap cli idGen sendCh msgCh persist trace] in *. subst. unfold_calls.
  destruct (next (UnSubRef (fresh (dom h))) g) as [id g'] eqn:Enext.
  cbn [fst snd] in Hid, Hused. subst id. unfold_calls.
  destruct (pDelete (sendKey _) ps) as [r ps'] eqn:Edel.
  destruct r as [r|]; cbn [persist_events fst];
    (eexists _, _; split; [reflexivity|]);
    unfold logic_recv; unfold_calls; unfold getExtra; rewrite Hused;
    rewrite lookup_insert_eq; rewrite lookup_insert_eq;
    cbn [mbind outcome_bind UnSubPacket.TopicNames]; unfold_calls;
    rewrite Edel; cbn [notifyPersistMsg]; unfold_calls;
    (split; [reflexivity|]); cbn [cli heap trace idGen msgCh free usedIDs];
    rewrite Hused;
    (split; [rewrite delete_insert_eq; apply delete_id; exact Hfree|]);
    cbn [chan_cap chan_buf]; rewrite <- ?app_assoc; cbn [app];
    rewrite ?app_nil_r; auto.
Qed.

(** In [sample_world] the id is 1, and no id is live in the end. *)
Lemma UnSubscribe_then_UnSubAck_witness :
  exists w1 w2,
    UnSubscribe ["a/b"%string] sample_world = Ret w1
    /\ logic_recv (UnSubAckPacket 1) w1 = Ret w2
    /\ usedIDs (idGen (cli w2)) = ∅
    /\ msgCh (cli w2) = Some (Chan 10 [unSubMsg ["a/b"%string] None]).
Proof.
  destruct (UnSubscribe_then_UnSubAck sample_world ["a/b"%string] (Chan 1 [])
              (Chan 10 []) eq_refl eq_refl eq_refl eq_refl)
    as (w1 & w2 & H1 & H2 & Hu & Hm & _).
  exists w1, w2. repeat split; assumption.
Defined.

(** X24. From the call to the acknowledgement, for a publish of qos 1
    with no id: [Publish] allocates the id, records it in the packet,
    stores the packet under [S<id>] and enqueues it; the PubAck for that
    id then emits the publish event, frees the id and deletes [S<id>].
    The side table ends as it was before the call. *)
Theorem Publish_qos1_then_PubAck {PS} `{!PersistMethod PS} (w : world PS)
  (l : loc) (p : PublishPacket.t) (sch : chan Packet) (mch : chan message) :
  isClosing w = false ->
  sendCh (cli w) = Some sch ->
  msgCh (cli w) = Some mch ->
  heap w !! l = Some (OPublish p) ->
  PublishPacket.Qos p = 1 ->
  PublishPacket.PacketID p = 0 ->
  let v := uint16 (uint32 (nextID (idGen (cli w)) + 1)) in
  let id := if decide (v = 0) then 1 else v in
  usedIDs (idGen (cli w)) !! id = None ->
  let stored := pStore (sendKey id) (PublishRef l) (persist (cli w)) in
  let deleted := pDelete (sendKey id) (snd stored) in
  exists w1 w2,
    Publish [Some l] w = Ret w1
    /\ logic_recv (PubAckPacket id) w1 = Ret w2
    /\ usedIDs (idGen (cli w2)) = usedIDs (idGen (cli w))
    /\ heap w2
       = <[l := OPublish (PublishPacket.mk (PublishPacket.TopicName p)
                            (PublishPacket.Payload p) 1 id)]> (heap w)
    /\ persist (cli w2) = snd deleted
    /\ trace w2 = trace w
         ++ [ENext (PublishRef l) id; EStore (sendKey id) (PublishRef l)]
         ++ persist_events (fst stored)
         ++ [ESendCh (PublishRef l);
             EMsg (pubMsg (PublishPacket.TopicName p) None);
             EFree id; EDelete (sendKey id)]
         ++ persist_events (fst deleted).
Proof.
  intros Hopen Hs Hm Hl Hq Hz. cbn zeta. intros Hfree.
  destruct (next_no_collision (PublishRef l) (idGen (cli w)) Hfree)
    as (_ & Hid & Hused).
  unfold Publish. rewrite Hopen. cbn [Publish_range]. unfold Publish_body.
  destruct p as [tn pl q pid]. cbn [PublishPacket.Qos PublishPacket.PacketID] in Hq, Hz.
  subst q pid.
  destruct w as [h c tr]. destruct c as [op mc sc rc g ps cd].
  cbn [heap cli idGen sendCh msgCh persist trace] in *. subst.
  unfold load_publish. cbn [heap]. rewrite Hl.
  cbn [mbind outcome_bind PublishPacket.Qos PublishPacket.PacketID
       PublishPacket.TopicName PublishPacket.Payload].
  unfold Qos2, Qos0.
  destruct (decide (1 > 2)) as [?|_]; [lia|]. cbn [heap]. rewrite Hl.
  cbn [mbind outcome_bind PublishPacket.Qos PublishPacket.PacketID
       PublishPacket.TopicName PublishPacket.Payload].
  destruct (decide (1 <> 0)) as [_|?]; [|lia].
  destruct (decide (0 = 0)) as [_|?]; [|lia].
  unfold_calls.
  destruct (next (PublishRef l) g) as [id g'] eqn:Enext.
  cbn [fst snd] in Hid, Hused. subst id. unfold_calls.
  destruct (pStore (sendKey _) (PublishRef l) ps) as [r1 ps1] eqn:Estore.
  cbn [fst snd].
  destruct (pDelete (sendKey _) ps1) as [r2 ps2] eqn:Edel.
  destruct r1 as [r1|], r2 as [r2|]; cbn [persist_events fst snd notifyPersistMsg];
    unfold_calls;
    (eexists _, _; split; [reflexivity|]);
    unfold logic_recv; unfold_calls; unfold getExtra; rewrite Hused;
    rewrite lookup_insert_eq; rewrite lookup_insert_eq;
    cbn [mbind outcome_bind PublishPacket.Qos PublishPacket.TopicName];
    unfold Qos1; (destruct (decide (1 = 1)) as [_|?]; [|lia]); unfold_calls;
    rewrite Edel; cbn [notifyPersistMsg]; unfold_calls;
    (split; [reflexivity|]); cbn [cli heap trace idGen msgCh free usedIDs persist];
    rewrite Hused;
    (split; [rewrite delete_insert_eq; apply delete_id; exact Hfree|]);
    rewrite <- ?app_assoc; cbn [app]; rewrite ?app_nil_r; auto.
Qed.

(** With the map store, nothing is left in the store either. *)
Lemma Publish_qos1_then_PubAck_witness :
  exists w1 w2,
    Publish [Some 1%positive] (sample_publish_world 1) = Ret w1
    /\ logic_recv (PubAckPacket 1) w1 = Ret w2
    /\ usedIDs (idGen (cli w2)) = ∅
    /\ persist (cli w2) = ∅.
Proof.
  destruct (Publish_qos1_then_PubAck (sample_publish_world 1)
              1%positive (PublishPacket.mk "t" [] 1 0) (Chan 1 []) (Chan 10 [])
              eq_refl eq_refl eq_refl ltac:(vm_compute; reflexivity)
              eq_refl eq_refl ltac:(vm_compute; reflexivity))
    as (w1 & w2 & H1 & H2 & Hu & _ & Hp & _).
  exists w1, w2. split; [exact H1|]. split; [exact H2|]. split.
  - rewrite Hu. vm_compute. reflexivity.
  - rewrite Hp. vm_compute. reflexivity.
Defined.

(** ** Connecting, continued *)

(** X25. What [connect] reports for the result of [waitForConnAck]:
    the error itself; a code that is [CodeSuccess] exactly when there is
    no error; for a refused CONNACK the broker's code and for every other
    failure 255; the failure count is reset on success and incremented on
    failure. *)
Theorem connect_reports_connack (ev : connack_select) (nfail : Z)
  (res : option error) :
  waitForConnAck ev = Ret res ->
  snd (snd (connect_report res nfail)) = res
  /\ (fst (snd (connect_report res nfail)) = CodeSuccess <-> res = None)
  /\ match res with
     | None => fst (connect_report res nfail) = 0
     | Some err =>
         fst (connect_report res nfail) = nfail + 1
         /\ match ev with
            | NetRecvCase (Some (ConnAckPacket Code)) =>
                fst (snd (connect_report res nfail)) = Code
            | _ => fst (snd (connect_report res nfail)) = MaxUint8
            end
     end.
Proof.
  intros H. destruct ev as [why|[pkt|]]; cbn in H.
  - injection H as <-. cbn. intuition discriminate.
  - destruct (decide (Type_ pkt <> CtrlConnAck)) as [Hne|He].
    + injection H as <-. cbn. split; [reflexivity|]. split; [intuition discriminate|].
      split; [reflexivity|]. destruct pkt; try reflexivity. exfalso. apply Hne. reflexivity.
    + destruct pkt; try discriminate.
      destruct (decide (Code <> CodeSuccess)); injection H as <-; cbn.
      * intuition (try discriminate; try contradiction).
      * intuition.
  - injection H as <-. cbn. intuition discriminate.
Qed.

(** A CONNACK with code 5 after two failures. *)
Lemma connect_reports_connack_witness :
  snd (snd (connect_report (Some (connAckError 5)) 2)) = Some (connAckError 5)
  /\ fst (connect_report (Some (connAckError 5)) 2) = 3
  /\ fst (snd (connect_report (Some (connAckError 5)) 2)) = 5.
Proof.
  destruct (connect_reports_connack (NetRecvCase (Some (ConnAckPacket 5))) 2
              (Some (connAckError 5)) eq_refl) as (Herr & _ & Hn & Hcode).
  repeat split; assumption.
Defined.

(** ** The keepalive watchdog, continued *)

(** A tick followed by the timer's expiry: one ping, one cancellation. *)
Lemma keepalive_run_pings_witness :
  exists tr,
    trace (emit ETimersStop
             (emit EExitConn (emit (ELogicSend PingReqPacket) sample_world)))
    = trace sample_world ++ tr
    /\ length (List.filter is_ping tr) = 1%nat
    /\ length (List.filter is_exit tr) = 1%nat.
Proof.
  destruct (keepalive_run_pings [KaTick; KaTimeout] KaSelect sample_world
              (emit ETimersStop
                 (emit EExitConn (emit (ELogicSend PingReqPacket) sample_world)))
              KaReturned eq_refl)
    as (tr & Htr & Hp & Hx & _).
  exists tr. repeat split; assumption.
Defined.
